(** * Scripts/optimize_images.js: image optimisation, watermark and tracker

    A shallow embedding of the batch script that converts product images
    to WebP, stamps a watermark on them, writes thumbnails and keeps a
    JSON tracker of the file names it has already converted.

    The script is embedded function by function, under the names it has
    in the source.  What the script takes from Node and from the sharp
    library (the file system, JSON, the image codec, the formatting of
    the console) is an [Env] of outcomes; what it changes (the one [Set]
    object, the files it writes or leaves half written, the console) is
    a [World] threaded through a state-and-exception monad.  The three
    configuration lines that the module prints when it is loaded are
    left out. *)

From Stdlib Require Import ZArith QArith Qcanon Qround String Ascii List Lia DecimalString.
From stdpp Require Import base gmap strings list.

(* ===================================================================== *)
(** ** JavaScript strings and numbers *)
(* ===================================================================== *)

(** File names and file contents are strings of 8-bit characters, a
    JavaScript string being held in UTF-8; case mapping is the ASCII one
    (no character outside ASCII lower-cases to one of the letters the
    script compares against, except in pairs with a combining mark, which
    compare unequal just the same). *)
Module JsString.

(** The double quote character, for the SVG attributes. *)
Definition dq : string := String "034"%char EmptyString.

(** A line feed, for the template literal. *)
Definition nl : string := String "010"%char EmptyString.

Definition len (s : string) : Z := Z.of_nat (String.length s).

(** [s.startsWith(t)] *)
Definition startsWith (s t : string) : bool := String.prefix t s.

(** [s.endsWith(t)]: [t] is [s] or ends a proper tail of [s]. *)
Fixpoint endsWith (s t : string) : bool :=
  if String.eqb s t then true
  else match s with
       | EmptyString => false
       | String _ s' => endsWith s' t
       end.

(** An index argument of [slice], resolved against the length:
    negative indices count from the end, all are clamped. *)
Definition resolve_index (n i : Z) : Z :=
  (if i <? 0 then Z.max (n + i) 0 else Z.min i n)%Z.

(** [s.slice(a, b)] *)
Definition slice (s : string) (a b : Z) : string :=
  let from := resolve_index (len s) a in
  let to := resolve_index (len s) b in
  substring (Z.to_nat from) (Z.to_nat (to - from)) s.

(** [s.slice(a)] *)
Definition slice_from (s : string) (a : Z) : string := slice s a (len s).

Definition lower_ascii (c : ascii) : ascii :=
  let n := nat_of_ascii c in
  if (65 <=? n)%nat && (n <=? 90)%nat then ascii_of_nat (n + 32) else c.

(** [s.toLowerCase()] *)
Fixpoint toLowerCase (s : string) : string :=
  match s with
  | EmptyString => EmptyString
  | String c s' => String (lower_ascii c) (toLowerCase s')
  end.

(** [arr.includes(s)] on an array of strings. *)
Definition includes (arr : list string) (s : string) : bool :=
  existsb (String.eqb s) arr.

(** An integer in a template literal, in decimal. *)
Definition of_Z (z : Z) : string := NilZero.string_of_int (Z.to_int z).

Definition of_nat (n : nat) : string := NilZero.string_of_uint (Nat.to_uint n).

(** A byte 10xxxxxx, which continues a character of more than one byte. *)
Definition is_continuation (c : ascii) : bool :=
  let n := nat_of_ascii c in (128 <=? n)%nat && (n <? 192)%nat.

(** The characters that [for (const c of s)] goes through: the code
    points of [s], each a first byte with the continuation bytes after
    it. *)
Fixpoint code_points (s : string) : list string :=
  match s with
  | EmptyString => []
  | String c rest =>
      let continued := match rest with
                       | String c' _ => is_continuation c'
                       | EmptyString => false
                       end in
      match code_points rest with
      | p :: ps => if continued then String c p :: ps
                   else String c EmptyString :: p :: ps
      | [] => [String c EmptyString]
      end
  end.

(** Whether a format string holds a percent sign. *)
Definition has_percent (s : string) : bool :=
  existsb (Ascii.eqb "%"%char) (list_ascii_of_string s).

End JsString.

(** [Math.round]: the nearest integer, halves towards plus infinity.
    The argument is an exact rational here: the script multiplies an
    integer by the literals 0.03 and 0.8, and the product is taken in
    exact arithmetic. *)
Definition Math_round (x : Q) : Z := Qfloor (x + (1 # 2)).

Definition Math_max (a b : Z) : Z := Z.max a b.

(* ===================================================================== *)
(** ** Node's [path] module (POSIX flavour) *)
(* ===================================================================== *)

Module Path.
Import JsString.

Definition CHAR_FORWARD_SLASH : ascii := "/"%char.
Definition CHAR_DOT : ascii := "."%char.

(** The variables of the right-to-left scan that [extname], [basename]
    and [parse] share. *)
Record Scan := mkScan {
  startDot : Z;
  startPart : Z;
  end_ : Z;
  matchedSlash : bool;
  preDotState : Z
}.

Definition scan_init : Scan := mkScan (-1) 0 (-1) true 0.

Definition set_startDot (st : Scan) (v : Z) : Scan :=
  mkScan v (startPart st) (end_ st) (matchedSlash st) (preDotState st).
Definition set_startPart (st : Scan) (v : Z) : Scan :=
  mkScan (startDot st) v (end_ st) (matchedSlash st) (preDotState st).
Definition set_end (st : Scan) (v : Z) : Scan :=
  mkScan (startDot st) (startPart st) v false (preDotState st).
Definition set_preDotState (st : Scan) (v : Z) : Scan :=
  mkScan (startDot st) (startPart st) (end_ st) (matchedSlash st) v.

(** What one character does to the scan, when it is not a separator. *)
Definition scan_char (code : ascii) (i : Z) (st : Scan) : Scan :=
  let st1 := if (end_ st =? -1)%Z then set_end st (i + 1) else st in
  if Ascii.eqb code CHAR_DOT then
    if (startDot st1 =? -1)%Z then set_startDot st1 i
    else if negb (preDotState st1 =? 1)%Z then set_preDotState st1 1
    else st1
  else if negb (startDot st1 =? -1)%Z then set_preDotState st1 (-1)
  else st1.

(** The loop [for (i = path.length - 1; i >= start; --i)], over the
    characters in reverse; [i] is the index of the head. *)
Fixpoint scan (rev_chars : list ascii) (i : Z) (st : Scan) : Scan :=
  match rev_chars with
  | [] => st
  | code :: rest =>
      if Ascii.eqb code CHAR_FORWARD_SLASH then
        if negb (matchedSlash st) then set_startPart st (i + 1)
        else scan rest (i - 1) st
      else scan rest (i - 1) (scan_char code i st)
  end.

(** The test under which the last path component has no extension. *)
Definition no_extension (st : Scan) : bool :=
  (startDot st =? -1)%Z
  || (preDotState st =? 0)%Z
  || ((preDotState st =? 1)%Z
      && (startDot st =? end_ st - 1)%Z
      && (startDot st =? startPart st + 1)%Z).

Definition scan_path (path : string) : Scan :=
  scan (rev (list_ascii_of_string path)) (len path - 1) scan_init.

(** [path.extname(p)] *)
Definition extname (path : string) : string :=
  let st := scan_path path in
  if no_extension st || (end_ st =? -1)%Z then EmptyString
  else slice path (startDot st) (end_ st).

(** [path.basename(p)] *)
Definition basename (path : string) : string :=
  let st := scan_path path in
  if (end_ st =? -1)%Z then EmptyString
  else slice path (startPart st) (end_ st).

(** [path.parse(p).name] *)
Definition parse_name (path : string) : string :=
  match path with
  | EmptyString => EmptyString
  | String c0 _ =>
      let isAbsolute := Ascii.eqb c0 CHAR_FORWARD_SLASH in
      let start := if isAbsolute then 1%nat else 0%nat in
      let st := scan (rev (drop start (list_ascii_of_string path)))
                     (len path - 1) scan_init in
      if (end_ st =? -1)%Z then EmptyString
      else
        let start' := if (startPart st =? 0)%Z && isAbsolute then 1%Z
                      else startPart st in
        if no_extension st then slice path start' (end_ st)
        else slice path start' (startDot st)
  end.

(** [path.join(dir, name)] for a normalised [dir] and a [name] of one
    component: the two are put together with one separator. *)
Definition join (dir name : string) : string :=
  if endsWith dir "/" then dir +:+ name else dir +:+ "/" +:+ name.

End Path.

(* ===================================================================== *)
(** ** Configuration *)
(* ===================================================================== *)

(** [path.join("./img/products/")] normalises to this. *)
Definition IMG_DIR : string := "img/products/".
Definition OPTIMIZED_IMG_DIR : string := Path.join IMG_DIR "optimized".
Definition THUMBNAIL_DIR : string := Path.join IMG_DIR "thumbnail".
Definition TRACKER_FILE : string := Path.join IMG_DIR "optimized_images.json".

(* ===================================================================== *)
(** ** The watermark *)
(* ===================================================================== *)

Definition fontSize (width : Z) : Z :=
  Math_max (Math_round (inject_Z width * (3 # 100))) 18.

Definition padding (width : Z) : Z :=
  Math_round (inject_Z (fontSize width) * (8 # 10)).

(** [createWatermarkSVG(width, height)]: the bytes of the SVG overlay. *)
Definition createWatermarkSVG (width height : Z) : string :=
  let fontSize := fontSize width in
  let padding := padding width in
  let dq := JsString.dq in
  let nl := JsString.nl in
  nl +:+ "    <svg width=" +:+ dq +:+ JsString.of_Z width +:+ dq
     +:+ " height=" +:+ dq +:+ JsString.of_Z height +:+ dq +:+ ">" +:+ nl
  +:+ "      <text" +:+ nl
  +:+ "        x=" +:+ dq +:+ "50%" +:+ dq +:+ nl
  +:+ "        y=" +:+ dq +:+ JsString.of_Z (height - padding) +:+ dq +:+ nl
  +:+ "        text-anchor=" +:+ dq +:+ "middle" +:+ dq +:+ nl
  +:+ "        font-size=" +:+ dq +:+ JsString.of_Z fontSize +:+ dq +:+ nl
  +:+ "        fill=" +:+ dq +:+ "white" +:+ dq +:+ nl
  +:+ "        fill-opacity=" +:+ dq +:+ "0.45" +:+ dq +:+ nl
  +:+ "        font-family=" +:+ dq +:+ "Arial, Helvetica, sans-serif" +:+ dq +:+ nl
  +:+ "        style=" +:+ dq +:+ "letter-spacing: 1px;" +:+ dq +:+ nl
  +:+ "      >" +:+ nl
  +:+ "        Sapna Shri Jewellers" +:+ nl
  +:+ "      </text>" +:+ nl
  +:+ "    </svg>" +:+ nl
  +:+ "  ".

(* ===================================================================== *)
(** ** Values, errors and the two sides of a run *)
(* ===================================================================== *)

(** A JavaScript number as [JSON.parse] can return it. *)
Inductive JsNumber :=
  | Finite (q : Qc)
  | PosInfinity
  | NegInfinity.

#[global] Instance JsNumber_eq_dec : EqDecision JsNumber.
Proof. solve_decision. Defined.

(** What [JSON.parse] returns. *)
#[warnings="-register-all"] Inductive JsValue :=
  | JNull
  | JBool (b : bool)
  | JNumber (n : JsNumber)
  | JString (s : string)
  | JArray (items : list JsValue)
  | JObject (fields : list (string * JsValue)).

(** A thrown [Error]: its [code] (set by Node on system errors) and its
    [message]. *)
Record JsError := mkError {
  code : option string;
  message : string
}.

Inductive Result (A : Type) :=
  | Ok (a : A)
  | Throw (e : JsError).
Arguments Ok {A} a.
Arguments Throw {A} e.

(** An entry of [fs.readdir(dir, { withFileTypes: true })]. *)
Record Dirent := mkDirent {
  name : string;
  isFile : bool
}.

Module Sharp.
(** What [sharp(...)] is given: a path to read or a buffer. *)
Inductive Input :=
  | FromPath (path : string)
  | FromBuffer (bytes : string).

Record Metadata := mkMetadata {
  width : Z;
  height : Z
}.
End Sharp.

Inductive LogLine :=
  | console_log_line (text : string)
  | console_error_line (text : string).

(** The outcomes of everything the script calls but does not define.
    Source images are never written by the script, so what sharp makes
    of an input does not depend on the [World]. *)
Record Env := mkEnv {
  (** [new Date().toISOString()] *)
  now_iso : string;
  (** [util.format(first, second)] on two strings, where [first] holds
      a percent sign *)
  util_format : string -> string -> string;
  (** the message of the [TypeError] for a value that cannot be
      iterated *)
  not_iterable_message : JsValue -> string;
  (** [fs.mkdir(dir, { recursive: true })] *)
  fs_mkdir : string -> Result unit;
  (** [fs.readdir(dir, { withFileTypes: true })], in listing order *)
  fs_readdir : string -> Result (list Dirent);
  (** a failure of [fs.readFile] other than the file being absent *)
  fs_readFile_fault : string -> option JsError;
  (** a failure of [fs.writeFile] *)
  fs_writeFile_fault : string -> option JsError;
  (** what a failed [fs.writeFile(path, data)] leaves in the file:
      nothing new when the file could not be opened, else the truncated
      or partial content *)
  fs_writeFile_partial : string -> string -> option string;
  JSON_parse : string -> Result JsValue;
  (** [JSON.stringify(v, null, 2)] *)
  JSON_stringify : JsValue -> string;
  (** [sharp(input).metadata()] *)
  sharp_metadata : Sharp.Input -> Result Sharp.Metadata;
  (** [sharp(input).resize(400, 400, { fit: "inside",
      withoutEnlargement: true }).toBuffer()] *)
  sharp_resize_toBuffer : Sharp.Input -> Result string;
  (** [sharp(input).composite([{ input: overlay }]).webp({ quality: 80 })
      .toFile(out)]: the bytes written, or the error *)
  sharp_composite_webp_toFile : Sharp.Input -> string -> string -> Result string;
  (** what a failed [toFile(out)] of that chain leaves at [out]: no
      file of its own, or an empty or partial one *)
  sharp_toFile_partial : Sharp.Input -> string -> string -> option string
}.

(** What a run changes: the [Set] objects on the heap (insertion
    ordered), the files, in [writes] the paths of the writes that
    completed, in the order they were made, and the console. *)
Record World := mkWorld {
  heap : gmap nat (list JsValue);
  next_ref : nat;
  disk : gmap string string;
  writes : list string;
  console : list LogLine
}.

Definition set_heap (w : World) (h : gmap nat (list JsValue)) : World :=
  mkWorld h (next_ref w) (disk w) (writes w) (console w).

Definition write_file (w : World) (path data : string) : World :=
  mkWorld (heap w) (next_ref w) (<[path := data]> (disk w))
          (writes w ++ [path]) (console w).

(** A write that failed: the file is as it was, or holds [part]. *)
Definition leave_file (w : World) (path : string) (left : option string) : World :=
  match left with
  | None => w
  | Some part =>
      mkWorld (heap w) (next_ref w) (<[path := part]> (disk w))
              (writes w) (console w)
  end.

Definition print (w : World) (l : LogLine) : World :=
  mkWorld (heap w) (next_ref w) (disk w) (writes w) (console w ++ [l]).

(* ===================================================================== *)
(** ** The monad of an async function body *)
(* ===================================================================== *)

(** Every [await] is taken in place, so an async body is a state
    transformer that returns or throws. *)
Definition M (A : Type) : Type := World -> Result A * World.

Definition ret {A} (a : A) : M A := fun w => (Ok a, w).

Definition throw {A} (e : JsError) : M A := fun w => (Throw e, w).

Definition bind {A B} (m : M A) (k : A -> M B) : M B :=
  fun w => match m w with
           | (Ok a, w') => k a w'
           | (Throw e, w') => (Throw e, w')
           end.

(** [try { body } catch (error) { handler }] *)
Definition try_catch {A} (body : M A) (handler : JsError -> M A) : M A :=
  fun w => match body w with
           | (Ok a, w') => (Ok a, w')
           | (Throw e, w') => handler e w'
           end.

Definition lift {A} (r : Result A) : M A := fun w => (r, w).

Declare Scope js_scope.
Delimit Scope js_scope with js.
Notation "'let*' x := m 'in' k" := (bind m (fun x => k))
  (at level 10, x name, m at level 100, k at level 200) : js_scope.
Notation "m ;;; k" := (bind m (fun _ => k))
  (at level 100, k at level 200, right associativity) : js_scope.
Open Scope js_scope.

(** *** The console *)

Definition console_log (text : string) : M unit :=
  fun w => (Ok tt, print w (console_log_line text)).

Definition console_error (text : string) : M unit :=
  fun w => (Ok tt, print w (console_error_line text)).

(** The text of [console.error(first, second)] on two strings.  Node
    takes [first] as a format string.  Without a percent sign it has
    nothing to substitute, and the two are joined by a space; with one,
    the text is what [util.format] makes of them. *)
Definition format (e : Env) (first second : string) : string :=
  if JsString.has_percent first then util_format e first second
  else first +:+ " " +:+ second.

(** [console.error(first, second)] *)
Definition console_error_2 (e : Env) (first second : string) : M unit :=
  console_error (format e first second).

(** *** [Set] *)

Module JsSet.

(** The comparison of [Set]: primitives by value; arrays and objects by
    identity, and every one that [JSON.parse] builds is its own. *)
Definition sameValueZero (x y : JsValue) : bool :=
  match x, y with
  | JNull, JNull => true
  | JBool a, JBool b => Bool.eqb a b
  | JNumber a, JNumber b => bool_decide (a = b)
  | JString a, JString b => String.eqb a b
  | _, _ => false
  end.

Definition mem (v : JsValue) (elems : list JsValue) : bool :=
  existsb (sameValueZero v) elems.

Definition insert (elems : list JsValue) (v : JsValue) : list JsValue :=
  if mem v elems then elems else elems ++ [v].

(** The [TypeError] of [new Set(v)] for a [v] without an iterator. *)
Definition TypeError_not_iterable (e : Env) (v : JsValue) : JsError :=
  mkError None (not_iterable_message e v).

(** The elements [new Set(v)] goes through: none for [null], the items
    of an array, the code points of a string. *)
Definition iterate (e : Env) (v : JsValue) : Result (list JsValue) :=
  match v with
  | JNull => Ok []
  | JArray items => Ok items
  | JString s => Ok (map JString (JsString.code_points s))
  | JBool _ | JNumber _ | JObject _ => Throw (TypeError_not_iterable e v)
  end.

Definition elements (w : World) (this : nat) : list JsValue :=
  default [] (heap w !! this).

Definition alloc (elems : list JsValue) : M nat :=
  fun w => (Ok (next_ref w),
            mkWorld (<[next_ref w := elems]> (heap w)) (S (next_ref w))
                    (disk w) (writes w) (console w)).

(** [new Set()] *)
Definition new_empty : M nat := alloc [].

(** [new Set(v)] *)
Definition new (e : Env) (v : JsValue) : M nat :=
  let* items := lift (iterate e v) in
  alloc (fold_left insert items []).

(** [this.has(v)] *)
Definition has (this : nat) (v : JsValue) : M bool :=
  fun w => (Ok (mem v (elements w this)), w).

(** [this.add(v)] *)
Definition add (this : nat) (v : JsValue) : M unit :=
  fun w => (Ok tt, set_heap w (<[this := insert (elements w this) v]> (heap w))).

(** [this.size] *)
Definition size (this : nat) : M nat :=
  fun w => (Ok (length (elements w this)), w).

(** [Array.from(this)] *)
Definition to_array (this : nat) : M (list JsValue) :=
  fun w => (Ok (elements w this), w).

End JsSet.

(** *** [fs/promises] and sharp *)

Module Fs.

Definition ENOENT (path : string) : JsError :=
  mkError (Some "ENOENT")
          ("ENOENT: no such file or directory, open '" +:+ path +:+ "'").

Definition mkdir (e : Env) (dir : string) : M unit := lift (fs_mkdir e dir).

Definition readdir (e : Env) (dir : string) : M (list Dirent) :=
  lift (fs_readdir e dir).

(** [fs.readFile(path, "utf8")] *)
Definition readFile (e : Env) (path : string) : M string :=
  fun w => match fs_readFile_fault e path with
           | Some err => (Throw err, w)
           | None => match disk w !! path with
                     | Some data => (Ok data, w)
                     | None => (Throw (ENOENT path), w)
                     end
           end.

(** [fs.writeFile(path, data, "utf8")]: the file is opened with
    truncation and written; nothing replaces it in one step, so a call
    that fails can leave it cut short. *)
Definition writeFile (e : Env) (path data : string) : M unit :=
  fun w => match fs_writeFile_fault e path with
           | Some err =>
               (Throw err, leave_file w path (fs_writeFile_partial e path data))
           | None => (Ok tt, write_file w path data)
           end.

End Fs.

(** [image.composite(...).webp(...).toFile(out)]: a call that fails can
    leave an empty or partial file at [out]. *)
Definition toFile (e : Env) (image : Sharp.Input) (overlay out : string) : M unit :=
  fun w => match sharp_composite_webp_toFile e image overlay out with
           | Ok bytes => (Ok tt, write_file w out bytes)
           | Throw err =>
               (Throw err,
                leave_file w out (sharp_toFile_partial e image overlay out))
           end.

(* ===================================================================== *)
(** ** The script *)
(* ===================================================================== *)

Import JsString.

(** [getOptimizedTracker()]: a reference to the [Set] of the names in the
    tracker file. *)
Definition getOptimizedTracker (e : Env) : M nat :=
  try_catch
    (let* data := Fs.readFile e TRACKER_FILE in
     let* list := lift (JSON_parse e data) in
     JsSet.new e list)
    (fun error =>
       if bool_decide (code error = Some "ENOENT") then JsSet.new_empty
       else
         console_error_2 e "Error reading tracker file:" (message error) ;;;
         JsSet.new_empty).

(** [updateOptimizedTracker(trackerSet)] *)
Definition updateOptimizedTracker (e : Env) (trackerSet : nat) : M unit :=
  let* list := JsSet.to_array trackerSet in
  Fs.writeFile e TRACKER_FILE (JSON_stringify e (JArray list)).

(** [optimizeImage(inputPath, filename, trackerSet)] *)
Definition optimizeImage (e : Env) (inputPath filename : string)
    (trackerSet : nat) : M unit :=
  let* tracked := JsSet.has trackerSet (JString filename) in
  if (tracked : bool) then ret tt
  else
    let ext := toLowerCase (Path.extname filename) in
    if String.eqb ext ".webp" then ret tt
    else
      let baseName := Path.parse_name filename in
      let outputPath := Path.join OPTIMIZED_IMG_DIR (baseName +:+ ".webp") in
      try_catch
        (let image := Sharp.FromPath inputPath in
         let* metadata := lift (sharp_metadata e image) in
         let watermarkSVG :=
           createWatermarkSVG (Sharp.width metadata) (Sharp.height metadata) in
         toFile e image watermarkSVG outputPath ;;;
         console_log ("✅ Optimized + Watermarked: " +:+ filename) ;;;
         JsSet.add trackerSet (JString filename))
        (fun error =>
           console_error_2 e ("❌ Failed to optimize " +:+ filename +:+ ":")
                           (message error)).

(** [createThumbnail(inputPath, filename)] *)
Definition createThumbnail (e : Env) (inputPath filename : string) : M unit :=
  let baseName := Path.parse_name filename in
  let thumbPath := Path.join THUMBNAIL_DIR (baseName +:+ ".webp") in
  try_catch
    (let* resizedBuffer := lift (sharp_resize_toBuffer e (Sharp.FromPath inputPath)) in
     let resizedImage := Sharp.FromBuffer resizedBuffer in
     let* metadata := lift (sharp_metadata e resizedImage) in
     let watermarkSVG :=
       createWatermarkSVG (Sharp.width metadata) (Sharp.height metadata) in
     toFile e resizedImage watermarkSVG thumbPath ;;;
     console_log ("🖼️ Thumbnail + Watermark: " +:+ filename))
    (fun error =>
       console_error_2 e ("❌ Failed to create thumbnail for " +:+ filename +:+ ":")
                       (message error)).

(** The predicate of the [filter] over the directory entries. *)
Definition is_image_file (f : Dirent) : bool :=
  isFile f
  && negb (startsWith (name f) ".")
  && negb (endsWith (name f) ".webp")
  && negb (endsWith (name f) (Path.basename TRACKER_FILE))
  && includes ["jpg"; "jpeg"; "png"; "gif"]
              (toLowerCase (slice_from (Path.extname (name f)) 1)).

(** [files.filter(...).map((f) => f.name)] *)
Definition imageFiles (files : list Dirent) : list string :=
  map name (filter (fun f => is_image_file f = true) files).

(** The [for (const file of imageFiles)] loop; [processedCount] is the
    counter on entry, the result is the counter on exit. *)
Fixpoint for_each_file (e : Env) (trackerSet : nat) (files : list string)
    (processedCount : nat) : M nat :=
  match files with
  | [] => ret processedCount
  | file :: rest =>
      let fullPath := Path.join IMG_DIR file in
      let* tracked := JsSet.has trackerSet (JString file) in
      let* processedCount :=
        (if negb tracked then
           optimizeImage e fullPath file trackerSet ;;;
           ret (S processedCount)
         else ret processedCount) in
      createThumbnail e fullPath file ;;;
      for_each_file e trackerSet rest processedCount
  end.

(** [runOptimization()] *)
Definition runOptimization (e : Env) : M unit :=
  console_log ("--- Starting Image Optimization at " +:+ now_iso e +:+ " ---") ;;;
  Fs.mkdir e OPTIMIZED_IMG_DIR ;;;
  Fs.mkdir e THUMBNAIL_DIR ;;;
  let* trackerSet := getOptimizedTracker e in
  let* size := JsSet.size trackerSet in
  console_log ("Tracker currently has " +:+ of_nat size +:+ " entries.") ;;;
  let* files := Fs.readdir e IMG_DIR in
  let imageFiles := imageFiles files in
  console_log ("Found " +:+ of_nat (length imageFiles) +:+ " image files to process.") ;;;
  let* processedCount := for_each_file e trackerSet imageFiles 0 in
  updateOptimizedTracker e trackerSet ;;;
  let* size := JsSet.size trackerSet in
  console_log ("--- Optimization complete. Processed " +:+ of_nat processedCount
               +:+ " new images. Tracker now has " +:+ of_nat size
               +:+ " entries. ---").

(** The last statement of the script:
    [runOptimization().catch(console.error)].  [inspect] is the text
    that [console.error] prints for an error object. *)
Definition main (inspect : JsError -> string) (e : Env) : M unit :=
  try_catch (runOptimization e)
            (fun error => console_error (inspect error)).

(* ===================================================================== *)
(** ** What a run does, file by file *)
(* ===================================================================== *)

Definition succeeds {A} (r : Result A) : bool :=
  match r with
  | Ok _ => true
  | Throw _ => false
  end.

(** [fullPath] of the loop. *)
Definition fullPath (file : string) : string := Path.join IMG_DIR file.

(** [outputPath] of [optimizeImage]. *)
Definition outputPath (filename : string) : string :=
  Path.join OPTIMIZED_IMG_DIR (Path.parse_name filename +:+ ".webp").

(** [thumbPath] of [createThumbnail]. *)
Definition thumbPath (filename : string) : string :=
  Path.join THUMBNAIL_DIR (Path.parse_name filename +:+ ".webp").

(** The [try] block of [optimizeImage] as sharp answers it: the bytes of
    the optimized output, or the error that is caught. *)
Definition optimize_attempt (e : Env) (inputPath filename : string) : Result string :=
  match sharp_metadata e (Sharp.FromPath inputPath) with
  | Ok metadata =>
      sharp_composite_webp_toFile e (Sharp.FromPath inputPath)
        (createWatermarkSVG (Sharp.width metadata) (Sharp.height metadata))
        (outputPath filename)
  | Throw error => Throw error
  end.

(** The [try] block of [createThumbnail] as sharp answers it. *)
Definition thumbnail_attempt (e : Env) (inputPath filename : string) : Result string :=
  match sharp_resize_toBuffer e (Sharp.FromPath inputPath) with
  | Ok resizedBuffer =>
      match sharp_metadata e (Sharp.FromBuffer resizedBuffer) with
      | Ok metadata =>
          sharp_composite_webp_toFile e (Sharp.FromBuffer resizedBuffer)
            (createWatermarkSVG (Sharp.width metadata) (Sharp.height metadata))
            (thumbPath filename)
      | Throw error => Throw error
      end
  | Throw error => Throw error
  end.

(** What a failed [try] block of [optimizeImage] leaves at the output
    path: nothing when the metadata could not be read, else what the
    failed [toFile] leaves. *)
Definition optimize_residue (e : Env) (inputPath filename : string) : option string :=
  match sharp_metadata e (Sharp.FromPath inputPath) with
  | Ok metadata =>
      let watermarkSVG :=
        createWatermarkSVG (Sharp.width metadata) (Sharp.height metadata) in
      match sharp_composite_webp_toFile e (Sharp.FromPath inputPath)
              watermarkSVG (outputPath filename) with
      | Ok _ => None
      | Throw _ =>
          sharp_toFile_partial e (Sharp.FromPath inputPath)
            watermarkSVG (outputPath filename)
      end
  | Throw _ => None
  end.

(** What a failed [try] block of [createThumbnail] leaves at the
    thumbnail's path. *)
Definition thumbnail_residue (e : Env) (inputPath filename : string) : option string :=
  match sharp_resize_toBuffer e (Sharp.FromPath inputPath) with
  | Ok resizedBuffer =>
      match sharp_metadata e (Sharp.FromBuffer resizedBuffer) with
      | Ok metadata =>
          let watermarkSVG :=
            createWatermarkSVG (Sharp.width metadata) (Sharp.height metadata) in
          match sharp_composite_webp_toFile e (Sharp.FromBuffer resizedBuffer)
                  watermarkSVG (thumbPath filename) with
          | Ok _ => None
          | Throw _ =>
              sharp_toFile_partial e (Sharp.FromBuffer resizedBuffer)
                watermarkSVG (thumbPath filename)
          end
      | Throw _ => None
      end
  | Throw _ => None
  end.

(** [trackerSet.has(file)] on the elements [T]. *)
Definition tracked (T : list JsValue) (file : string) : bool :=
  JsSet.mem (JString file) T.

Definition optimized_line (filename : string) : LogLine :=
  console_log_line ("✅ Optimized + Watermarked: " +:+ filename).

Definition optimize_failed_line (e : Env) (filename : string) (error : JsError)
    : LogLine :=
  console_error_line
    (format e ("❌ Failed to optimize " +:+ filename +:+ ":") (message error)).

Definition thumbnail_line (filename : string) : LogLine :=
  console_log_line ("🖼️ Thumbnail + Watermark: " +:+ filename).

Definition thumbnail_failed_line (e : Env) (filename : string) (error : JsError)
    : LogLine :=
  console_error_line
    (format e ("❌ Failed to create thumbnail for " +:+ filename +:+ ":")
            (message error)).

(** The world after [optimizeImage]. *)
Definition optimize_effect (e : Env) (inputPath filename : string)
    (trackerSet : nat) (w : World) : World :=
  if tracked (JsSet.elements w trackerSet) filename then w
  else if String.eqb (toLowerCase (Path.extname filename)) ".webp" then w
  else match optimize_attempt e inputPath filename with
       | Ok bytes =>
           set_heap (print (write_file w (outputPath filename) bytes)
                           (optimized_line filename))
                    (<[trackerSet := JsSet.insert (JsSet.elements w trackerSet)
                                                  (JString filename)]> (heap w))
       | Throw error =>
           print (leave_file w (outputPath filename)
                             (optimize_residue e inputPath filename))
                 (optimize_failed_line e filename error)
       end.

(** The world after [createThumbnail]. *)
Definition thumbnail_effect (e : Env) (inputPath filename : string)
    (w : World) : World :=
  match thumbnail_attempt e inputPath filename with
  | Ok bytes => print (write_file w (thumbPath filename) bytes)
                      (thumbnail_line filename)
  | Throw error =>
      print (leave_file w (thumbPath filename)
                        (thumbnail_residue e inputPath filename))
            (thumbnail_failed_line e filename error)
  end.

(** The line [optimizeImage] prints for a file it attempts, and the
    line [createThumbnail] prints. *)
Definition optimize_console (e : Env) (inputPath filename : string) : LogLine :=
  match optimize_attempt e inputPath filename with
  | Ok _ => optimized_line filename
  | Throw error => optimize_failed_line e filename error
  end.

Definition thumbnail_console (e : Env) (inputPath filename : string) : LogLine :=
  match thumbnail_attempt e inputPath filename with
  | Ok _ => thumbnail_line filename
  | Throw error => thumbnail_failed_line e filename error
  end.

(** The console lines one file of the loop leaves, for a tracker that
    held [T] when the run loaded it. *)
Definition file_console (e : Env) (T : list JsValue) (file : string) : list LogLine :=
  (if tracked T file then [] else [optimize_console e (fullPath file) file])
  ++ [thumbnail_console e (fullPath file) file].

(** The paths one file of the loop writes to completion. *)
Definition file_writes (e : Env) (T : list JsValue) (file : string) : list string :=
  (if tracked T file then []
   else if succeeds (optimize_attempt e (fullPath file) file) then [outputPath file]
   else [])
  ++ (if succeeds (thumbnail_attempt e (fullPath file) file) then [thumbPath file]
      else []).

(** The files the loop hands to [optimizeImage]. *)
Definition untracked (T : list JsValue) (files : list string) : list string :=
  filter (fun f => tracked T f = false) files.

(** The files the loop optimizes: handed over, and converted. *)
Definition newly_optimized (e : Env) (T : list JsValue) (files : list string) : list string :=
  filter (fun f => succeeds (optimize_attempt e (fullPath f) f) = true)
         (untracked T files).

(** The files whose thumbnail the loop writes. *)
Definition thumbnailed (e : Env) (files : list string) : list string :=
  filter (fun f => succeeds (thumbnail_attempt e (fullPath f) f) = true) files.

(** The [try] block of [getOptimizedTracker]: the elements the [Set] is
    built from, or the error that is caught. *)
Definition tracker_read (e : Env) (w : World) : Result (list JsValue) :=
  match fs_readFile_fault e TRACKER_FILE with
  | Some err => Throw err
  | None =>
      match disk w !! TRACKER_FILE with
      | None => Throw (Fs.ENOENT TRACKER_FILE)
      | Some data =>
          match JSON_parse e data with
          | Ok v => JsSet.iterate e v
          | Throw err => Throw err
          end
      end
  end.

(** The elements of the [Set] that [getOptimizedTracker] returns. *)
Definition loaded_tracker (e : Env) (w : World) : list JsValue :=
  match tracker_read e w with
  | Ok items => fold_left JsSet.insert items []
  | Throw _ => []
  end.

(** What [getOptimizedTracker] prints. *)
Definition load_console (e : Env) (w : World) : list LogLine :=
  match tracker_read e w with
  | Ok _ => []
  | Throw error =>
      if bool_decide (code error = Some "ENOENT") then []
      else [console_error_line ("Error reading tracker file: " +:+ message error)]
  end.

(** The last line of a run. *)
Definition report_line (processedCount size : nat) : LogLine :=
  console_log_line ("--- Optimization complete. Processed " +:+ of_nat processedCount
                    +:+ " new images. Tracker now has " +:+ of_nat size
                    +:+ " entries. ---").

(** The lines of a run before the loop. *)
Definition header_console (e : Env) (w : World) (files : list Dirent) : list LogLine :=
  [console_log_line ("--- Starting Image Optimization at " +:+ now_iso e +:+ " ---")]
  ++ load_console e w
  ++ [console_log_line ("Tracker currently has "
                        +:+ of_nat (length (loaded_tracker e w)) +:+ " entries.");
      console_log_line ("Found " +:+ of_nat (length (imageFiles files))
                        +:+ " image files to process.")].

(** The environment lets a run reach its end: the two output
    directories can be made, the source directory lists as [files], with
    no name twice, and the tracker file can be written. *)
Definition io_ok (e : Env) (files : list Dirent) : Prop :=
  fs_mkdir e OPTIMIZED_IMG_DIR = Ok tt
  /\ fs_mkdir e THUMBNAIL_DIR = Ok tt
  /\ fs_readdir e IMG_DIR = Ok files
  /\ fs_writeFile_fault e TRACKER_FILE = None
  /\ NoDup (map name files).

(** The paths written between two worlds of a run, and those of them
    that lie in a directory. *)
Definition written_during (w w' : World) : list string :=
  drop (length (writes w)) (writes w').

Definition in_dir (dir path : string) : bool := startsWith path (dir +:+ "/").

Definition outputs_in (dir : string) (w w' : World) : list string :=
  filter (fun p => in_dir dir p = true) (written_during w w').

(** How many files they are. *)
Definition files_in (dir : string) (w w' : World) : nat :=
  length (remove_dups (outputs_in dir w w')).

(** The paths one file of the loop can change: its optimized output
    when it is not tracked, and its thumbnail. *)
Definition file_targets (T : list JsValue) (file : string) : list string :=
  (if tracked T file then [] else [outputPath file]) ++ [thumbPath file].

(** [wrote w w' new targets]: from [w] to [w'] the paths [new] were
    written, in that order; they exist in [w'], no file has gone, and
    every file that is not among [new] or [targets] is as it was. *)
Definition wrote (w w' : World) (new targets : list string) : Prop :=
  writes w' = writes w ++ new
  /\ (forall p, p ∈ new -> is_Some (disk w' !! p))
  /\ (forall p, is_Some (disk w !! p) -> is_Some (disk w' !! p))
  /\ (forall p, p ∉ new -> p ∉ targets -> disk w' !! p = disk w !! p).

(* ===================================================================== *)
(** ** Sample directories *)
(* ===================================================================== *)

Module Examples.

(** A listing of regular files, with the two output directories. *)
Definition entries (names : list string) : list Dirent :=
  map (fun n => mkDirent n true) names
  ++ [mkDirent "optimized" false; mkDirent "thumbnail" false].

Fixpoint stringify_names (l : list JsValue) : string :=
  match l with
  | [] => EmptyString
  | JString s :: rest =>
      nl +:+ "  " +:+ dq +:+ s +:+ dq
      +:+ (match rest with [] => nl | _ => "," end)
      +:+ stringify_names rest
  | _ :: rest => stringify_names rest
  end.

(** [JSON.stringify(v, null, 2)] on arrays of plain names. *)
Definition stringify (v : JsValue) : string :=
  match v with
  | JArray [] => "[]"
  | JArray l => "[" +:+ stringify_names l +:+ "]"
  | _ => "null"
  end.

Definition SyntaxError : JsError :=
  mkError None "Unexpected token in JSON at position 0".

(** [JSON.parse] on the texts of the arrays [known]; a syntax error
    elsewhere. *)
Definition parse (known : list (list string)) (text : string) : Result JsValue :=
  match find (fun l => String.eqb (stringify (JArray (map JString l))) text) known with
  | Some l => Ok (JArray (map JString l))
  | None => Throw SyntaxError
  end.

Definition unsupported : JsError :=
  mkError None "Input file contains unsupported image format".

Definition is_bad (bad : list string) (path : string) : bool :=
  existsb (String.eqb path) bad.

(** A directory of the files [names], where sharp cannot decode the
    paths [bad] and converts everything else, and no write fails.  No
    sample name holds a percent sign, so that [util_format] is not
    consulted; the [TypeError] message is the one for an object. *)
Definition env (names bad : list string) (known : list (list string)) : Env :=
  mkEnv "2024-01-01T00:00:00.000Z"
    (fun first second => first +:+ " " +:+ second)
    (fun _ => "object is not iterable (cannot read property Symbol(Symbol.iterator))")
    (fun _ => Ok tt)
    (fun _ => Ok (entries names))
    (fun _ => None)
    (fun _ => None)
    (fun _ _ => None)
    (parse known)
    stringify
    (fun input =>
       match input with
       | Sharp.FromPath p =>
           if is_bad bad p then Throw unsupported
           else Ok (Sharp.mkMetadata 800 600)
       | Sharp.FromBuffer _ => Ok (Sharp.mkMetadata 400 300)
       end)
    (fun input =>
       match input with
       | Sharp.FromPath p =>
           if is_bad bad p then Throw unsupported else Ok ("resized " +:+ p)
       | Sharp.FromBuffer b => Ok b
       end)
    (fun input overlay out =>
       match input with
       | Sharp.FromPath p => Ok ("webp " +:+ p)
       | Sharp.FromBuffer b => Ok ("webp " +:+ b)
       end)
    (fun _ _ _ => None).

(** Nothing on disk, nothing on the heap. *)
Definition empty_world : World := mkWorld ∅ 0 ∅ [] [].

(** Two images that convert. *)
Definition two_images : Env :=
  env ["ring.jpg"; "chain.png"] [] [["ring.jpg"; "chain.png"]].

(** Two images with one base name. *)
Definition same_base : Env := env ["a.jpg"; "a.png"] [] [["a.jpg"; "a.png"]].

(** One image that converts and one that sharp cannot decode. *)
Definition one_bad : Env :=
  env ["ring.jpg"; "broken.png"] ["img/products/broken.png"] [["ring.jpg"]].


(** The directory of [two_images] once [chain.png] has been removed. *)
Definition chain_removed : Env :=
  env ["ring.jpg"] [] [["ring.jpg"; "chain.png"]].

(** The world a first run over [two_images] leaves. *)
Definition after_two_images : World := snd (runOptimization two_images empty_world).

(** Two images, both in the tracker, one of which sharp cannot decode
    any more. *)
Definition tracked_bad : Env :=
  env ["ring.jpg"; "broken.png"] ["img/products/broken.png"]
      [["ring.jpg"; "broken.png"]].

(** A disk that holds their tracker file. *)
Definition both_tracked : World :=
  mkWorld ∅ 0
    {[ TRACKER_FILE
       := stringify (JArray [JString "ring.jpg"; JString "broken.png"]) ]}
    [] [].

End Examples.

(* ===================================================================== *)
(** ** The loop and the files, in full *)
(* ===================================================================== *)

(** The world after the [for (const file of imageFiles)] loop, and the
    counter on exit, for any list of files. *)
Fixpoint loop_effect (e : Env) (trackerSet : nat) (files : list string)
    (w : World) : World :=
  match files with
  | [] => w
  | file :: rest =>
      loop_effect e trackerSet rest
        (thumbnail_effect e (fullPath file) file
           (if tracked (JsSet.elements w trackerSet) file then w
            else optimize_effect e (fullPath file) file trackerSet w))
  end.

Fixpoint loop_count (e : Env) (trackerSet : nat) (files : list string)
    (processedCount : nat) (w : World) : nat :=
  match files with
  | [] => processedCount
  | file :: rest =>
      loop_count e trackerSet rest
        (if tracked (JsSet.elements w trackerSet) file then processedCount
         else S processedCount)
        (thumbnail_effect e (fullPath file) file
           (if tracked (JsSet.elements w trackerSet) file then w
            else optimize_effect e (fullPath file) file trackerSet w))
  end.

(** What the scan keeps true below index [i] of a component whose last
    index is [top]: the end is marked; no dot has been seen, or the dot
    is above [i], and some character was seen before it only if it is not
    the first. *)
Definition scan_inv (top i : Z) (st : Path.Scan) : Prop :=
  Path.end_ st <> (-1)%Z
  /\ ((Path.startDot st = (-1)%Z /\ Path.preDotState st = 0%Z)
      \/ ((i < Path.startDot st <= top)%Z
          /\ (Path.preDotState st <> 0%Z -> (1 <= Path.startDot st)%Z))).

(** No two elements of [T] are the same value for [Set]. *)
Fixpoint distinct (T : list JsValue) : bool :=
  match T with
  | [] => true
  | v :: rest => negb (JsSet.mem v rest) && distinct rest
  end.

(** The strings among the elements of a set. *)
Definition names_in (T : list JsValue) : list string :=
  flat_map (fun v => match v with JString s => [s] | _ => [] end) T.

(** A name of one path component: it has no separator. *)
Definition single_component (n : string) : bool :=
  forallb (fun c => negb (Ascii.eqb c Path.CHAR_FORWARD_SLASH))
          (list_ascii_of_string n).

(** What an attempt puts at [path]: the bytes it writes, or what it
    leaves there when it fails. *)
Definition attempt_output (path : string) (attempt : Result string)
    (residue : option string) : list (string * string) :=
  match attempt with
  | Ok bytes => [(path, bytes)]
  | Throw _ => match residue with
               | Some part => [(path, part)]
               | None => []
               end
  end.

(** The files one file of the loop writes or leaves, with their bytes. *)
Definition file_outputs (e : Env) (T : list JsValue) (file : string)
    : list (string * string) :=
  (if tracked T file then []
   else attempt_output (outputPath file)
          (optimize_attempt e (fullPath file) file)
          (optimize_residue e (fullPath file) file))
  ++ attempt_output (thumbPath file)
       (thumbnail_attempt e (fullPath file) file)
       (thumbnail_residue e (fullPath file) file).

(** The files after a sequence of writes. *)
Definition store (d : gmap string string) (l : list (string * string))
    : gmap string string :=
  fold_left (fun d pr => <[fst pr := snd pr]> d) l d.

(** The bytes of the last write to [p] in a sequence of writes. *)
Fixpoint last_write (p : string) (l : list (string * string)) : option string :=
  match l with
  | [] => None
  | pr :: rest =>
      match last_write p rest with
      | Some v => Some v
      | None => if String.eqb (fst pr) p then Some (snd pr) else None
      end
  end.

(** Directories where something goes wrong. *)
Module Faults.

Definition EACCES : JsError := mkError (Some "EACCES") "EACCES: permission denied".

Definition ENOSPC : JsError :=
  mkError (Some "ENOSPC") "ENOSPC: no space left on device, write".

(** [Examples.two_images] with other answers of the file system. *)
Definition with_fs (mkdir : string -> Result unit)
    (readdir : string -> Result (list Dirent))
    (write_fault : string -> option JsError)
    (write_partial : string -> string -> option string) : Env :=
  mkEnv (now_iso Examples.two_images)
        (util_format Examples.two_images)
        (not_iterable_message Examples.two_images)
        mkdir readdir
        (fs_readFile_fault Examples.two_images) write_fault write_partial
        (JSON_parse Examples.two_images) (JSON_stringify Examples.two_images)
        (sharp_metadata Examples.two_images)
        (sharp_resize_toBuffer Examples.two_images)
        (sharp_composite_webp_toFile Examples.two_images)
        (sharp_toFile_partial Examples.two_images).

(** The output directories cannot be made. *)
Definition no_mkdir : Env :=
  with_fs (fun _ => Throw EACCES) (fs_readdir Examples.two_images)
          (fun _ => None) (fun _ _ => None).

(** The source directory cannot be listed. *)
Definition no_readdir : Env :=
  with_fs (fun _ => Ok tt) (fun _ => Throw EACCES)
          (fun _ => None) (fun _ _ => None).

(** The tracker file cannot be opened for writing. *)
Definition no_write : Env :=
  with_fs (fun _ => Ok tt) (fs_readdir Examples.two_images)
          (fun _ => Some EACCES) (fun _ _ => None).

(** The tracker file is opened, and the device is full: the file is
    left empty. *)
Definition disk_full : Env :=
  with_fs (fun _ => Ok tt) (fs_readdir Examples.two_images)
          (fun _ => Some ENOSPC) (fun _ _ => Some EmptyString).

(** [Examples.two_images] where sharp decodes and cannot encode: every
    [toFile] fails and leaves an empty file. *)
Definition no_encode : Env :=
  mkEnv (now_iso Examples.two_images)
        (util_format Examples.two_images)
        (not_iterable_message Examples.two_images)
        (fs_mkdir Examples.two_images) (fs_readdir Examples.two_images)
        (fs_readFile_fault Examples.two_images)
        (fs_writeFile_fault Examples.two_images)
        (fs_writeFile_partial Examples.two_images)
        (JSON_parse Examples.two_images) (JSON_stringify Examples.two_images)
        (sharp_metadata Examples.two_images)
        (sharp_resize_toBuffer Examples.two_images)
        (fun _ _ _ => Throw ENOSPC)
        (fun _ _ _ => Some EmptyString).

(** The directory of [Examples.one_bad] once [broken.png] has been
    replaced by an image that sharp decodes. *)
Definition repaired : Env :=
  Examples.env ["ring.jpg"; "broken.png"] [] [["ring.jpg"]].

(** Two images of one base name, where sharp converts [a.png] and
    cannot encode the optimized output of [a.jpg], of which it leaves an
    empty file. *)
Definition shared_output : Env :=
  mkEnv (now_iso Examples.same_base)
        (util_format Examples.same_base)
        (not_iterable_message Examples.same_base)
        (fs_mkdir Examples.same_base) (fs_readdir Examples.same_base)
        (fs_readFile_fault Examples.same_base)
        (fs_writeFile_fault Examples.same_base)
        (fs_writeFile_partial Examples.same_base)
        (Examples.parse [["a.png"]]) (JSON_stringify Examples.same_base)
        (sharp_metadata Examples.same_base)
        (sharp_resize_toBuffer Examples.same_base)
        (fun input overlay out =>
           match input with
           | Sharp.FromPath p =>
               if String.eqb p "img/products/a.jpg" then Throw ENOSPC
               else Ok ("webp " +:+ p)
           | Sharp.FromBuffer b => Ok ("webp " +:+ b)
           end)
        (fun _ _ _ => Some EmptyString).

(** [util.inspect] of an error, in short. *)
Definition inspect (error : JsError) : string := "Error: " +:+ message error.

End Faults.

(* ===================================================================== *)
(** ** The library functions on sample inputs *)
(* ===================================================================== *)

Example extname_samples :
  map Path.extname ["a.jpg"; "a.b.PNG"; ".hidden"; "noext"; "a."; ".."; "x/y.gif"; "dir.d/"]
  = [".jpg"; ".PNG"; ""; ""; "."; ""; ".gif"; ".d"].
Proof. vm_compute. reflexivity. Qed.

Example parse_name_samples :
  map Path.parse_name ["a.jpg"; "a.b.PNG"; ".hidden"; "noext"; "a."; "/abs.png"; "x/y.gif"]
  = ["a"; "a.b"; ".hidden"; "noext"; "a"; "abs"; "y"].
Proof. vm_compute. reflexivity. Qed.

Example config_samples :
  (OPTIMIZED_IMG_DIR, THUMBNAIL_DIR, TRACKER_FILE, Path.basename TRACKER_FILE)
  = ("img/products/optimized", "img/products/thumbnail",
     "img/products/optimized_images.json", "optimized_images.json").
Proof. vm_compute. reflexivity. Qed.

Example code_points_samples :
  map code_points ["ring"; "a€b"; "é"]
  = [["r"; "i"; "n"; "g"]; ["a"; "€"; "b"]; ["é"]].
Proof. vm_compute. reflexivity. Qed.

Example format_samples :
  format Examples.two_images "Error reading tracker file:" "Unexpected end of JSON input"
  = "Error reading tracker file: Unexpected end of JSON input".
Proof. reflexivity. Qed.

Example fontSize_samples :
  map fontSize [1; 50; 400; 583; 584; 616; 617; 650; 4000]%Z
  = [18; 18; 18; 18; 18; 18; 19; 20; 120]%Z.
Proof. vm_compute. reflexivity. Qed.

(* ===================================================================== *)
(** ** The steps of the script, evaluated *)
(* ===================================================================== *)

Lemma optimizeImage_run e inputPath filename trackerSet w :
  optimizeImage e inputPath filename trackerSet w
  = (Ok tt, optimize_effect e inputPath filename trackerSet w).
Proof.
  unfold optimizeImage, optimize_effect, bind, JsSet.has, tracked.
  destruct (JsSet.mem _ _); [reflexivity|].
  destruct (String.eqb _ _); [reflexivity|].
  unfold try_catch, bind, lift, optimize_attempt, optimize_residue, toFile,
    outputPath.
  destruct (sharp_metadata e _) as [metadata|error]; [|reflexivity].
  cbv zeta.
  destruct (sharp_composite_webp_toFile e _ _ _) as [bytes|error]; reflexivity.
Qed.

Lemma createThumbnail_run e inputPath filename w :
  createThumbnail e inputPath filename w
  = (Ok tt, thumbnail_effect e inputPath filename w).
Proof.
  unfold createThumbnail, thumbnail_effect, try_catch, bind, lift,
    thumbnail_attempt, thumbnail_residue, toFile, thumbPath.
  destruct (sharp_resize_toBuffer e _) as [buffer|error]; [|reflexivity].
  destruct (sharp_metadata e _) as [metadata|error]; [|reflexivity].
  cbv zeta.
  destruct (sharp_composite_webp_toFile e _ _ _) as [bytes|error]; reflexivity.
Qed.

(** The world after [getOptimizedTracker]. *)
Lemma getOptimizedTracker_run e w :
  getOptimizedTracker e w
  = (Ok (next_ref w),
     mkWorld (<[next_ref w := loaded_tracker e w]> (heap w)) (S (next_ref w))
             (disk w) (writes w) (console w ++ load_console e w)).
Proof.
  unfold getOptimizedTracker, loaded_tracker, load_console, tracker_read,
    try_catch, bind, Fs.readFile, lift, JsSet.new, JsSet.new_empty, JsSet.alloc,
    bind, lift, console_error_2, console_error, print.
  destruct (fs_readFile_fault e _) as [err|]; simpl.
  - destruct (bool_decide _); simpl; [rewrite app_nil_r|]; reflexivity.
  - destruct (disk w !! _) as [data|]; simpl.
    + destruct (JSON_parse e data) as [v|err]; simpl.
      * destruct (JsSet.iterate e v) as [items|err]; simpl.
        -- rewrite app_nil_r. reflexivity.
        -- destruct (bool_decide _); simpl; [rewrite app_nil_r|]; reflexivity.
      * destruct (bool_decide _); simpl; [rewrite app_nil_r|]; reflexivity.
    + rewrite app_nil_r. reflexivity.
Qed.

(* ===================================================================== *)
(** ** Writes, the tracker set and the loop *)
(* ===================================================================== *)

Lemma wrote_nothing w w' targets :
  writes w' = writes w -> disk w' = disk w -> wrote w w' [] targets.
Proof.
  intros Hw Hd. split; [by rewrite app_nil_r|]. split; [|split].
  - intros p Hp. by apply elem_of_nil in Hp.
  - intros p. by rewrite Hd.
  - intros p _ _. by rewrite Hd.
Qed.

Lemma is_Some_insert (d : gmap string string) path data p :
  is_Some (d !! p) -> is_Some (<[path := data]> d !! p).
Proof.
  intros H. destruct (decide (path = p)) as [->|Hne].
  - rewrite lookup_insert_eq. eauto.
  - by rewrite lookup_insert_ne.
Qed.

Lemma wrote_file w path data targets :
  wrote w (write_file w path data) [path] targets.
Proof.
  split; [reflexivity|]. split; [|split]; simpl.
  - intros p Hp. apply list_elem_of_singleton in Hp as ->.
    rewrite lookup_insert_eq. eauto.
  - intros p. apply is_Some_insert.
  - intros p Hp _. apply lookup_insert_ne. intros ->. apply Hp. by left.
Qed.

(** A write that failed changes its own path at most. *)
Lemma wrote_left w path left :
  wrote w (leave_file w path left) [] [path].
Proof.
  destruct left as [part|]; [|by apply wrote_nothing].
  split; [by rewrite app_nil_r|]. split; [|split]; simpl.
  - intros p Hp. by apply elem_of_nil in Hp.
  - intros p. apply is_Some_insert.
  - intros p _ Hp. apply lookup_insert_ne. intros ->. apply Hp. by left.
Qed.

Lemma wrote_trans w1 w2 w3 n1 n2 t1 t2 :
  wrote w1 w2 n1 t1 -> wrote w2 w3 n2 t2 -> wrote w1 w3 (n1 ++ n2) (t1 ++ t2).
Proof.
  intros (Hw1 & Hin1 & Hkeep1 & Hout1) (Hw2 & Hin2 & Hkeep2 & Hout2). split.
  - by rewrite Hw2, Hw1, app_assoc.
  - split; [|split].
    + intros p Hp. apply elem_of_app in Hp as [Hp|Hp].
      * by apply Hkeep2, Hin1.
      * by apply Hin2.
    + intros p Hp. by apply Hkeep2, Hkeep1.
    + intros p Hp Ht. rewrite Hout2, Hout1; [done| | | |]; intros ?.
      * apply Hp, elem_of_app; auto.
      * apply Ht, elem_of_app; auto.
      * apply Hp, elem_of_app; auto.
      * apply Ht, elem_of_app; auto.
Qed.

Lemma wrote_targets w w' new t t' :
  (forall p, p ∈ t -> p ∈ t') -> wrote w w' new t -> wrote w w' new t'.
Proof.
  intros Hsub (Hw & Hin & Hkeep & Hout). split; [done|]. split; [done|].
  split; [done|].
  intros p Hp Ht. apply Hout; [done|]. intros H. by apply Ht, Hsub.
Qed.

(** Printing and the heap are no matter to the files. *)
Lemma wrote_ext w w1 w2 new targets :
  writes w2 = writes w1 -> disk w2 = disk w1 ->
  wrote w w1 new targets -> wrote w w2 new targets.
Proof.
  intros Hw Hd (H1 & H2 & H3 & H4). unfold wrote. rewrite Hw, Hd. done.
Qed.

Lemma elements_set_heap w h t elems :
  JsSet.elements (set_heap w (<[t := elems]> h)) t = elems.
Proof. unfold JsSet.elements. simpl. by rewrite lookup_insert_eq. Qed.

Lemma tracked_snoc T f g :
  tracked (T ++ [JString f]) g = tracked T g || String.eqb g f.
Proof.
  unfold tracked, JsSet.mem. rewrite existsb_app. simpl.
  by rewrite orb_false_r.
Qed.

Lemma insert_untracked T f :
  tracked T f = false -> JsSet.insert T (JString f) = T ++ [JString f].
Proof. unfold tracked, JsSet.insert. by intros ->. Qed.

(** [optimizeImage] on a file that is not tracked and is not WebP. *)
Lemma optimize_effect_untracked e inputPath f t w :
  tracked (JsSet.elements w t) f = false ->
  String.eqb (toLowerCase (Path.extname f)) ".webp" = false ->
  let ok := succeeds (optimize_attempt e inputPath f) in
  let w' := optimize_effect e inputPath f t w in
  JsSet.elements w' t
  = JsSet.elements w t ++ (if ok then [JString f] else [])
  /\ console w'
     = console w ++ [optimize_console e inputPath f]
  /\ wrote w w' (if ok then [outputPath f] else []) [outputPath f].
Proof.
  intros Ht Hext. unfold optimize_effect, optimize_console. rewrite Ht, Hext.
  destruct (optimize_attempt e inputPath f) as [bytes|error]; cbn [succeeds].
  - rewrite elements_set_heap, (insert_untracked _ _ Ht).
    split; [done|]. split; [done|]. apply (wrote_file w).
  - rewrite app_nil_r. split.
    { unfold JsSet.elements. by destruct (optimize_residue e inputPath f). }
    split.
    { by destruct (optimize_residue e inputPath f). }
    eapply wrote_ext; [| |apply (wrote_left w (outputPath f)
                                   (optimize_residue e inputPath f))]; done.
Qed.

Lemma thumbnail_effect_spec e inputPath f w :
  let ok := succeeds (thumbnail_attempt e inputPath f) in
  let w' := thumbnail_effect e inputPath f w in
  heap w' = heap w
  /\ next_ref w' = next_ref w
  /\ console w'
     = console w ++ [thumbnail_console e inputPath f]
  /\ wrote w w' (if ok then [thumbPath f] else []) [thumbPath f].
Proof.
  unfold thumbnail_effect, thumbnail_console.
  destruct (thumbnail_attempt e inputPath f) as [bytes|error]; cbn [succeeds].
  - split; [done|]. split; [done|]. split; [done|]. apply (wrote_file w).
  - split; [by destruct (thumbnail_residue e inputPath f)|].
    split; [by destruct (thumbnail_residue e inputPath f)|].
    split; [by destruct (thumbnail_residue e inputPath f)|].
    eapply wrote_ext; [| |apply (wrote_left w (thumbPath f)
                                   (thumbnail_residue e inputPath f))]; done.
Qed.

Lemma length_untracked_cons T f rest :
  length (untracked T (f :: rest))
  = ((if tracked T f then 0 else 1) + length (untracked T rest))%nat.
Proof.
  unfold untracked. destruct (tracked T f) eqn:E.
  - by rewrite filter_cons_False by congruence.
  - by rewrite filter_cons_True.
Qed.

Lemma newly_optimized_cons e T f rest :
  newly_optimized e T (f :: rest)
  = (if tracked T f then []
     else if succeeds (optimize_attempt e (fullPath f) f) then [f] else [])
    ++ newly_optimized e T rest.
Proof.
  unfold newly_optimized, untracked. destruct (tracked T f) eqn:E.
  - by rewrite filter_cons_False by congruence.
  - rewrite filter_cons_True by done.
    destruct (succeeds _) eqn:E'.
    + by rewrite filter_cons_True.
    + by rewrite filter_cons_False by congruence.
Qed.

Lemma for_each_file_cons e t f rest c w :
  for_each_file e t (f :: rest) c w
  = let is_tracked := JsSet.mem (JString f) (JsSet.elements w t) in
    for_each_file e t rest (if is_tracked then c else S c)
      (thumbnail_effect e (fullPath f) f
         (if is_tracked then w else optimize_effect e (fullPath f) f t w)).
Proof.
  cbn [for_each_file]. unfold bind, JsSet.has.
  destruct (JsSet.mem _ _); cbn [negb].
  - unfold ret. by rewrite createThumbnail_run.
  - rewrite optimizeImage_run. unfold ret. by rewrite createThumbnail_run.
Qed.

(** The loop over files that are pairwise distinct and not WebP, for a
    tracker that agrees with [T] on them. *)
Lemma for_each_file_run e t T files :
  NoDup files ->
  (forall g, g ∈ files -> String.eqb (toLowerCase (Path.extname g)) ".webp" = false) ->
  forall processedCount w,
    (forall g, g ∈ files -> tracked (JsSet.elements w t) g = tracked T g) ->
    exists w',
      for_each_file e t files processedCount w
      = (Ok (processedCount + length (untracked T files))%nat, w')
      /\ JsSet.elements w' t
         = JsSet.elements w t ++ map JString (newly_optimized e T files)
      /\ console w' = console w ++ concat (map (file_console e T) files)
      /\ wrote w w' (concat (map (file_writes e T) files))
                    (concat (map (file_targets T) files)).
Proof.
  intros Hnd. induction Hnd as [|f rest Hf Hnd IH]; intros Hext c w Hagree.
  - exists w. simpl. rewrite Nat.add_0_r, !app_nil_r.
    split; [done|]. split; [done|]. split; [done|]. by apply wrote_nothing.
  - assert (Hextf := Hext f ltac:(left)).
    assert (Htf := Hagree f ltac:(left)).
    set (w1 := if tracked T f then w else optimize_effect e (fullPath f) f t w).
    set (c1 := if tracked T f then c else S c).
    set (w2 := thumbnail_effect e (fullPath f) f w1).
    assert (Hstep : for_each_file e t (f :: rest) c w
                    = for_each_file e t rest c1 w2).
    { rewrite for_each_file_cons. fold (tracked (JsSet.elements w t) f).
      rewrite Htf. subst w1 c1 w2. by destruct (tracked T f). }
    destruct (thumbnail_effect_spec e (fullPath f) f w1) as (Hh & _ & Hc2 & Hw2).
    fold w2 in Hh, Hc2, Hw2.
    assert (Hel2 : JsSet.elements w2 t = JsSet.elements w1 t).
    { unfold JsSet.elements. by rewrite Hh. }
    assert (H1 : JsSet.elements w1 t
                 = JsSet.elements w t
                   ++ map JString (if tracked T f then []
                                   else if succeeds (optimize_attempt e (fullPath f) f)
                                        then [f] else [])
                 /\ console w1
                    = console w ++ (if tracked T f then []
                                    else [optimize_console e (fullPath f) f])
                 /\ wrote w w1 (if tracked T f then []
                                else if succeeds (optimize_attempt e (fullPath f) f)
                                     then [outputPath f] else [])
                               (if tracked T f then [] else [outputPath f])).
    { subst w1. destruct (tracked T f) eqn:HT.
      - rewrite !app_nil_r. split; [done|]. split; [done|]. by apply wrote_nothing.
      - destruct (optimize_effect_untracked e (fullPath f) f t w Htf Hextf)
          as (He & Hc & Hw).
        rewrite He, Hc. revert Hw. cbv zeta.
        by destruct (succeeds (optimize_attempt e (fullPath f) f)). }
    destruct H1 as (Hel1 & Hc1 & Hw1).
    destruct (IH (fun g Hg => Hext g ltac:(by right)) c1 w2) as (w' & Hrun & Hel & Hc & Hw).
    { intros g Hg. rewrite Hel2, Hel1, <- (Hagree g ltac:(by right)).
      destruct (tracked T f); [by rewrite app_nil_r|].
      destruct (succeeds (optimize_attempt e (fullPath f) f)); [|by rewrite app_nil_r].
      simpl. rewrite tracked_snoc.
      destruct (String.eqb_spec g f) as [->|]; [contradiction|].
      by rewrite orb_false_r. }
    exists w'. split; [|split; [|split]].
    + rewrite Hstep, Hrun, length_untracked_cons. subst c1.
      destruct (tracked T f); do 2 f_equal; lia.
    + rewrite Hel, Hel2, Hel1, newly_optimized_cons, map_app, app_assoc. done.
    + rewrite Hc, Hc2, Hc1. cbn [map concat]. unfold file_console at 2.
      rewrite <- !app_assoc. done.
    + simpl. unfold file_writes at 1, file_targets at 1.
      eapply wrote_trans; [|exact Hw].
      eapply wrote_trans; [exact Hw1|exact Hw2].
Qed.

(** ** Strings *)

(** The code points of a string, put together, are the string. *)
Lemma code_points_concat s :
  fold_right String.append EmptyString (code_points s) = s.
Proof.
  induction s as [|c rest IH]; [done|]. cbn [code_points].
  destruct (code_points rest) as [|p ps].
  - cbn in IH. by rewrite <- IH.
  - cbn [fold_right] in IH.
    destruct (match rest with
              | EmptyString => false
              | String c' _ => is_continuation c'
              end); cbn [fold_right]; rewrite <- IH; reflexivity.
Qed.

Lemma substring_all s : substring 0 (String.length s) s = s.
Proof. induction s as [|c s IH]; simpl; [done|by rewrite IH]. Qed.

Lemma slice_from_1 c s : slice_from (String c s) 1 = s.
Proof.
  unfold slice_from, slice, resolve_index, len.
  cbn [String.length].
  assert (H0 : (Z.of_nat (S (String.length s)) <? 0)%Z = false)
    by (apply Z.ltb_ge; lia).
  rewrite H0. cbn [Z.ltb Z.compare].
  replace (Z.to_nat (Z.min 1 (Z.of_nat (S (String.length s))))) with 1%nat by lia.
  replace (Z.to_nat (Z.min (Z.of_nat (S (String.length s))) (Z.of_nat (S (String.length s)))
                     - Z.min 1 (Z.of_nat (S (String.length s)))))
    with (String.length s) by lia.
  cbn [substring]. apply substring_all.
Qed.

(** An extension that lower-cases to ".webp" is not on the allow-list. *)
Lemma webp_not_allowed x :
  toLowerCase x = ".webp" ->
  includes ["jpg"; "jpeg"; "png"; "gif"] (toLowerCase (slice_from x 1)) = false.
Proof.
  destruct x as [|c x]; [discriminate|]. intros H.
  rewrite slice_from_1. cbn [toLowerCase] in H. injection H as _ ->.
  reflexivity.
Qed.

Lemma image_file_not_webp f :
  is_image_file f = true ->
  String.eqb (toLowerCase (Path.extname (name f))) ".webp" = false.
Proof.
  intros H. destruct (String.eqb_spec (toLowerCase (Path.extname (name f))) ".webp") as [E|]; [|done].
  unfold is_image_file in H. rewrite (webp_not_allowed _ E) in H.
  by rewrite andb_false_r in H.
Qed.

Lemma elem_of_imageFiles g files :
  g ∈ imageFiles files <-> exists f, f ∈ files /\ is_image_file f = true /\ name f = g.
Proof.
  unfold imageFiles. rewrite list_elem_of_fmap. split.
  - intros (f & -> & Hf). apply list_elem_of_filter in Hf as [? ?]. eauto.
  - intros (f & Hf & Hi & <-). exists f. split; [done|].
    by apply list_elem_of_filter.
Qed.

Lemma NoDup_imageFiles files :
  NoDup (map name files) -> NoDup (imageFiles files).
Proof.
  intros H. unfold imageFiles.
  apply (sublist_NoDup _ (map name files)); [exact H|].
  apply (fmap_sublist name), sublist_filter.
Qed.

(** ** A whole run *)

Lemma runOptimization_run e w files :
  io_ok e files ->
  let t := next_ref w in
  let T := loaded_tracker e w in
  let T' := T ++ map JString (newly_optimized e T (imageFiles files)) in
  exists w',
    runOptimization e w = (Ok tt, w')
    /\ JsSet.elements w' t = T'
    /\ console w'
       = console w ++ header_console e w files
         ++ concat (map (file_console e T) (imageFiles files))
         ++ [report_line (length (untracked T (imageFiles files))) (length T')]
    /\ wrote w w' (concat (map (file_writes e T) (imageFiles files)) ++ [TRACKER_FILE])
                  (concat (map (file_targets T) (imageFiles files)))
    /\ disk w' !! TRACKER_FILE = Some (JSON_stringify e (JArray T')).
Proof.
  intros (Hmk1 & Hmk2 & Hdir & Hwr & Hnd) t T T'.
  set (w1 := mkWorld (<[t := T]> (heap w)) (S t) (disk w) (writes w)
               (console w ++ header_console e w files)).
  assert (Hel1 : JsSet.elements w1 t = T).
  { unfold JsSet.elements, w1. simpl. by rewrite lookup_insert_eq. }
  destruct (for_each_file_run e t T (imageFiles files) (NoDup_imageFiles _ Hnd)) with (processedCount := 0%nat) (w := w1)
    as (w2 & Hloop & Hel2 & Hc2 & Hw2).
  { intros g Hg. apply elem_of_imageFiles in Hg as (f & _ & Hf & <-).
    by apply image_file_not_webp. }
  { intros g _. by rewrite Hel1. }
  rewrite Hel1 in Hel2. fold T' in Hel2.
  exists (print (write_file w2 TRACKER_FILE (JSON_stringify e (JArray T')))
                (report_line (length (untracked T (imageFiles files))) (length T'))).
  split; [|split; [|split; [|split]]].
  - unfold runOptimization.
    unfold bind at 1. unfold console_log at 1.
    unfold bind at 1. unfold Fs.mkdir at 1, lift at 1. rewrite Hmk1.
    unfold bind at 1. unfold Fs.mkdir at 1, lift at 1. rewrite Hmk2.
    unfold bind at 1. rewrite getOptimizedTracker_run.
    unfold bind at 1. unfold JsSet.size at 1.
    unfold bind at 1. unfold console_log at 1.
    unfold bind at 1. unfold Fs.readdir at 1, lift at 1. rewrite Hdir.
    unfold bind at 1. unfold console_log at 1.
    unfold bind at 1.
    match goal with
    | |- context [for_each_file e _ _ _ ?w0] =>
        replace w0 with w1
    end.
    2:{ unfold w1, header_console, print, JsSet.elements. simpl.
        rewrite lookup_insert_eq. simpl.
        by rewrite <- !app_assoc. }
    change (next_ref (print w _)) with t. rewrite Hloop. cbv beta iota.
    unfold bind at 1. unfold updateOptimizedTracker, bind, JsSet.to_array, Fs.writeFile.
    rewrite Hwr, Hel2. unfold JsSet.size, console_log.
    assert (Hel3 : JsSet.elements (write_file w2 TRACKER_FILE (JSON_stringify e (JArray T'))) t = T') by done.
    rewrite Hel3. reflexivity.
  - done.
  - cbn [console print write_file]. rewrite Hc2. unfold w1. cbn [console].
    by rewrite <- !app_assoc.
  - eapply wrote_targets;
      [|eapply wrote_trans with (w2 := w2) (t2 := []);
        [|apply (wrote_file w2)]].
    + intros p Hp. by rewrite app_nil_r in Hp.
    + eapply wrote_ext; [| |exact Hw2]; done.
  - simpl. by rewrite lookup_insert_eq.
Qed.

(** ** Paths *)

Lemma endsWith_refl s : endsWith s s = true.
Proof. destruct s; cbn [endsWith]; by rewrite String.eqb_refl. Qed.

Lemma endsWith_suffix s t : endsWith s t = true -> exists p, s = p +:+ t.
Proof.
  induction s as [|c s IH]; cbn [endsWith].
  - destruct (String.eqb_spec "" t) as [<-|]; [|done]. by exists "".
  - destruct (String.eqb_spec (String c s) t) as [<-|].
    + by exists "".
    + intros H. destruct (IH H) as [p ->]. by exists (String c p).
Qed.

Lemma list_ascii_of_string_app a b :
  list_ascii_of_string (a +:+ b) = list_ascii_of_string a ++ list_ascii_of_string b.
Proof. induction a as [|c a IH]; simpl; [done|by rewrite IH]. Qed.

Lemma length_app_string a b :
  String.length (a +:+ b) = (String.length a + String.length b)%nat.
Proof. induction a as [|c a IH]; simpl; [done|by rewrite IH]. Qed.

Lemma append_assoc a b c : (a +:+ b) +:+ c = a +:+ (b +:+ c).
Proof.
  induction a as [|x a IH]; [done|].
  change (String x ((a +:+ b) +:+ c) = String x (a +:+ (b +:+ c))).
  by rewrite IH.
Qed.

Lemma append_inj_r a b c : a +:+ c = b +:+ c -> a = b.
Proof.
  revert b. induction a as [|x a IH]; intros [|y b] H.
  - done.
  - apply (f_equal String.length) in H.
    rewrite !length_app_string in H. simpl in H. lia.
  - apply (f_equal String.length) in H.
    rewrite !length_app_string in H. simpl in H. lia.
  - change (String x (a +:+ c) = String y (b +:+ c)) in H.
    injection H as -> H. by rewrite (IH _ H).
Qed.

(** ** The error lines *)

Lemma has_percent_app a b :
  has_percent (a +:+ b) = has_percent a || has_percent b.
Proof. unfold has_percent. by rewrite list_ascii_of_string_app, existsb_app. Qed.

Lemma format_plain e first second :
  has_percent first = false -> format e first second = first +:+ " " +:+ second.
Proof. unfold format. by intros ->. Qed.

(** The error line of [optimizeImage] for a name without a percent
    sign. *)
Lemma optimize_failed_line_plain e f error :
  has_percent f = false ->
  optimize_failed_line e f error
  = console_error_line ("❌ Failed to optimize " +:+ f +:+ ": " +:+ message error).
Proof.
  intros Hf. unfold optimize_failed_line. rewrite format_plain.
  - by rewrite !append_assoc.
  - rewrite !has_percent_app, Hf. reflexivity.
Qed.

(** The error line of [createThumbnail] for a name without a percent
    sign. *)
Lemma thumbnail_failed_line_plain e f error :
  has_percent f = false ->
  thumbnail_failed_line e f error
  = console_error_line ("❌ Failed to create thumbnail for " +:+ f +:+ ": "
                        +:+ message error).
Proof.
  intros Hf. unfold thumbnail_failed_line. rewrite format_plain.
  - by rewrite !append_assoc.
  - rewrite !has_percent_app, Hf. reflexivity.
Qed.

Lemma substring_skip a b n :
  substring (String.length a) n (a +:+ b) = substring 0 n b.
Proof. induction a as [|c a IH]; simpl; [done|exact IH]. Qed.

(** Once the scan has seen a dot and the end of the component, neither
    moves. *)
Lemma scan_keeps rest :
  forall i st,
    Path.startDot st <> (-1)%Z -> Path.end_ st <> (-1)%Z ->
    Path.startDot (Path.scan rest i st) = Path.startDot st
    /\ Path.end_ (Path.scan rest i st) = Path.end_ st.
Proof.
  induction rest as [|c rest IH]; intros i st Hd He; [done|].
  cbn [Path.scan].
  destruct (Ascii.eqb c Path.CHAR_FORWARD_SLASH).
  - destruct (negb (Path.matchedSlash st)); [done|]. by apply IH.
  - assert (Hc : Path.startDot (Path.scan_char c i st) = Path.startDot st
                 /\ Path.end_ (Path.scan_char c i st) = Path.end_ st).
    { unfold Path.scan_char.
      destruct (Z.eqb_spec (Path.end_ st) (-1)); [done|].
      destruct (Z.eqb_spec (Path.startDot st) (-1)); [done|].
      cbn [negb]. destruct (Ascii.eqb c Path.CHAR_DOT); [|done].
      by destruct (negb _). }
    destruct Hc as [Hc1 Hc2].
    destruct (IH (i - 1)%Z (Path.scan_char c i st)) as [H1 H2]; [congruence..|].
    by rewrite H1, H2.
Qed.

Lemma scan_char_letter c i st :
  Ascii.eqb c Path.CHAR_DOT = false ->
  Path.startDot st = (-1)%Z -> Path.end_ st <> (-1)%Z ->
  Path.scan_char c i st = st.
Proof.
  intros Hc Hd He. unfold Path.scan_char. rewrite Hc.
  destruct (Z.eqb_spec (Path.end_ st) (-1)); [done|].
  by rewrite Hd.
Qed.

Lemma scan_char_dot i st :
  Path.startDot st = (-1)%Z -> Path.end_ st <> (-1)%Z ->
  Path.scan_char Path.CHAR_DOT i st = Path.set_startDot st i.
Proof.
  intros Hd He. unfold Path.scan_char.
  destruct (Z.eqb_spec (Path.end_ st) (-1)); [done|].
  by rewrite Hd.
Qed.

(** The scan of a name that ends in ".json". *)
Lemma scan_json rest i :
  (4 <= i)%Z ->
  let st := Path.scan ("n" :: "o" :: "s" :: "j" :: "." :: rest)%char i Path.scan_init in
  Path.startDot st = (i - 4)%Z /\ Path.end_ st = (i + 1)%Z.
Proof.
  intros Hi. cbn [Path.scan].
  change (Ascii.eqb "n" Path.CHAR_FORWARD_SLASH) with false.
  change (Ascii.eqb "o" Path.CHAR_FORWARD_SLASH) with false.
  change (Ascii.eqb "s" Path.CHAR_FORWARD_SLASH) with false.
  change (Ascii.eqb "j" Path.CHAR_FORWARD_SLASH) with false.
  change (Ascii.eqb "." Path.CHAR_FORWARD_SLASH) with false.
  cbv beta iota.
  change (Path.scan_char "n" i Path.scan_init)
    with (Path.set_end Path.scan_init (i + 1)).
  set (st1 := Path.set_end Path.scan_init (i + 1)).
  assert (Hd : Path.startDot st1 = (-1)%Z) by done.
  assert (He : Path.end_ st1 <> (-1)%Z) by (unfold st1; simpl; lia).
  rewrite !(scan_char_letter _ _ st1) by done.
  change "."%char with Path.CHAR_DOT.
  rewrite (scan_char_dot _ st1) by done.
  destruct (scan_keeps rest (i - 1 - 1 - 1 - 1 - 1)%Z
              (Path.set_startDot st1 (i - 1 - 1 - 1 - 1))) as [K1 K2].
  { simpl. lia. }
  { exact He. }
  rewrite K1, K2. simpl. split; lia.
Qed.

(** A name that ends with the tracker file's name has the extension
    ".json" or none. *)
Lemma extname_tracker_suffix s :
  endsWith s (Path.basename TRACKER_FILE) = true ->
  Path.extname s = "" \/ Path.extname s = ".json".
Proof.
  intros H. apply endsWith_suffix in H as [p ->].
  change (Path.basename TRACKER_FILE) with ("optimized_images" +:+ ".json").
  rewrite <- append_assoc.
  set (q := p +:+ "optimized_images").
  unfold Path.extname, Path.scan_path.
  rewrite list_ascii_of_string_app, rev_app_distr.
  cbn [list_ascii_of_string rev app].
  set (st := Path.scan _ _ _).
  destruct (Path.no_extension st || _); [by left|right].
  assert (Hlen : len (q +:+ ".json") = (Z.of_nat (String.length q) + 5)%Z).
  { unfold len. rewrite length_app_string. simpl. lia. }
  destruct (scan_json (rev (list_ascii_of_string q)) (len (q +:+ ".json") - 1)) as [H1 H2];
    [lia|].
  fold st in H1, H2. rewrite H1, H2.
  unfold slice, resolve_index. rewrite Hlen.
  assert (E1 : (Z.of_nat (String.length q) + 5 - 1 - 4 <? 0)%Z = false) by (apply Z.ltb_ge; lia).
  assert (E2 : (Z.of_nat (String.length q) + 5 - 1 + 1 <? 0)%Z = false) by (apply Z.ltb_ge; lia).
  rewrite E1, E2.
  replace (Z.to_nat (Z.min (Z.of_nat (String.length q) + 5 - 1 - 4) (Z.of_nat (String.length q) + 5)))
    with (String.length q) by lia.
  match goal with |- substring _ ?n _ = _ => replace n with 5%nat by lia end.
  rewrite substring_skip. reflexivity.
Qed.

Lemma tracker_name_not_image f :
  endsWith (name f) (Path.basename TRACKER_FILE) = true ->
  includes ["jpg"; "jpeg"; "png"; "gif"]
           (toLowerCase (slice_from (Path.extname (name f)) 1)) = false.
Proof.
  intros H. by destruct (extname_tracker_suffix _ H) as [-> | ->].
Qed.

(** ** Where the outputs go *)

Lemma outputPath_in_optimized f : in_dir OPTIMIZED_IMG_DIR (outputPath f) = true.
Proof. unfold outputPath. generalize (Path.parse_name f +:+ ".webp"). intros x. by destruct x. Qed.

Lemma outputPath_in_thumbnail f : in_dir THUMBNAIL_DIR (outputPath f) = false.
Proof. unfold outputPath. generalize (Path.parse_name f +:+ ".webp"). intros x. reflexivity. Qed.

Lemma thumbPath_in_thumbnail f : in_dir THUMBNAIL_DIR (thumbPath f) = true.
Proof. unfold thumbPath. generalize (Path.parse_name f +:+ ".webp"). intros x. by destruct x. Qed.

Lemma thumbPath_in_optimized f : in_dir OPTIMIZED_IMG_DIR (thumbPath f) = false.
Proof. unfold thumbPath. generalize (Path.parse_name f +:+ ".webp"). intros x. reflexivity. Qed.

Lemma tracker_in_optimized : in_dir OPTIMIZED_IMG_DIR TRACKER_FILE = false.
Proof. reflexivity. Qed.

Lemma tracker_in_thumbnail : in_dir THUMBNAIL_DIR TRACKER_FILE = false.
Proof. reflexivity. Qed.

Lemma outputPath_inj f g :
  outputPath f = outputPath g -> Path.parse_name f = Path.parse_name g.
Proof.
  unfold outputPath. intros H.
  change (Path.join OPTIMIZED_IMG_DIR ?x) with ("img/products/optimized/" +:+ x) in H.
  apply String.app_inj in H. by apply append_inj_r in H.
Qed.

Lemma thumbPath_inj f g :
  thumbPath f = thumbPath g -> Path.parse_name f = Path.parse_name g.
Proof.
  unfold thumbPath. intros H.
  change (Path.join THUMBNAIL_DIR ?x) with ("img/products/thumbnail/" +:+ x) in H.
  apply String.app_inj in H. by apply append_inj_r in H.
Qed.

Lemma written_during_wrote w w' new targets :
  wrote w w' new targets -> written_during w w' = new.
Proof. intros (H & _). unfold written_during. rewrite H. apply drop_app_length. Qed.

Lemma filter_optimized_writes e T files :
  filter (fun p => in_dir OPTIMIZED_IMG_DIR p = true)
         (concat (map (file_writes e T) files))
  = map outputPath (newly_optimized e T files).
Proof.
  induction files as [|f rest IH]; [done|].
  cbn [map concat]. rewrite filter_app, IH, newly_optimized_cons, map_app.
  f_equal. unfold file_writes. rewrite filter_app.
  assert (Ht : filter (fun p => in_dir OPTIMIZED_IMG_DIR p = true)
                 (if succeeds (thumbnail_attempt e (fullPath f) f) then [thumbPath f] else [])
               = []).
  { destruct (succeeds (thumbnail_attempt e (fullPath f) f)); [|done].
    rewrite filter_cons_False; [done|]. by rewrite thumbPath_in_optimized. }
  rewrite Ht, app_nil_r.
  destruct (tracked T f); [done|].
  destruct (succeeds (optimize_attempt e (fullPath f) f)); [|done].
  rewrite filter_cons_True; [done|]. apply outputPath_in_optimized.
Qed.

Lemma thumbnailed_cons e f rest :
  thumbnailed e (f :: rest)
  = (if succeeds (thumbnail_attempt e (fullPath f) f) then [f] else [])
    ++ thumbnailed e rest.
Proof.
  unfold thumbnailed. destruct (succeeds _) eqn:E.
  - by rewrite filter_cons_True.
  - by rewrite filter_cons_False by congruence.
Qed.

Lemma filter_thumbnail_writes e T files :
  filter (fun p => in_dir THUMBNAIL_DIR p = true)
         (concat (map (file_writes e T) files))
  = map thumbPath (thumbnailed e files).
Proof.
  induction files as [|f rest IH]; [done|].
  cbn [map concat]. rewrite filter_app, IH, thumbnailed_cons, map_app.
  f_equal. unfold file_writes. rewrite filter_app.
  assert (Ho : filter (fun p => in_dir THUMBNAIL_DIR p = true)
                 (if tracked T f then []
                  else if succeeds (optimize_attempt e (fullPath f) f)
                       then [outputPath f] else [])
               = []).
  { destruct (tracked T f); [done|].
    destruct (succeeds (optimize_attempt e (fullPath f) f)); [|done].
    rewrite filter_cons_False; [done|]. by rewrite outputPath_in_thumbnail. }
  rewrite Ho, app_nil_l.
  destruct (succeeds (thumbnail_attempt e (fullPath f) f)); [|done].
  rewrite filter_cons_True; [done|]. apply thumbPath_in_thumbnail.
Qed.

(** The outputs of a run in the two directories. *)
Lemma outputs_of_run e T files w w' :
  wrote w w' (concat (map (file_writes e T) files) ++ [TRACKER_FILE])
             (concat (map (file_targets T) files)) ->
  outputs_in OPTIMIZED_IMG_DIR w w' = map outputPath (newly_optimized e T files)
  /\ outputs_in THUMBNAIL_DIR w w' = map thumbPath (thumbnailed e files).
Proof.
  intros H. unfold outputs_in. rewrite (written_during_wrote _ _ _ _ H).
  rewrite !filter_app, filter_optimized_writes, filter_thumbnail_writes.
  rewrite !filter_cons_False, !filter_nil, !app_nil_r; [done|..].
  - by rewrite tracker_in_thumbnail.
  - by rewrite tracker_in_optimized.
Qed.

(** ** Membership in a [Set] *)

Lemma sameValueZero_trans v x y :
  JsSet.sameValueZero v x = true ->
  JsSet.sameValueZero x y = JsSet.sameValueZero v y.
Proof.
  destruct v, x; try discriminate; simpl; intros H.
  - done.
  - apply Bool.eqb_prop in H. by subst.
  - apply bool_decide_eq_true in H. by subst.
  - apply String.eqb_eq in H. by subst.
Qed.

Lemma mem_insert v T x :
  JsSet.mem v (JsSet.insert T x) = JsSet.mem v T || JsSet.sameValueZero v x.
Proof.
  unfold JsSet.insert. destruct (JsSet.mem x T) eqn:Hx.
  - destruct (JsSet.sameValueZero v x) eqn:Hv; [|by rewrite orb_false_r].
    rewrite orb_true_r. unfold JsSet.mem in *.
    apply existsb_exists in Hx as (y & Hy & Hxy).
    apply existsb_exists. exists y. split; [done|].
    by rewrite <- (sameValueZero_trans _ _ _ Hv).
  - unfold JsSet.mem. rewrite existsb_app. simpl. by rewrite orb_false_r.
Qed.

Lemma mem_fold_insert v items :
  forall acc,
    JsSet.mem v (fold_left JsSet.insert items acc)
    = JsSet.mem v acc || JsSet.mem v items.
Proof.
  induction items as [|x items IH]; intros acc; simpl.
  - by rewrite orb_false_r.
  - rewrite IH, mem_insert. by rewrite orb_assoc.
Qed.

(** ** Lists *)

Lemma filter_all {A} (P : A -> Prop) `{forall x, Decision (P x)} (l : list A) :
  (forall x, x ∈ l -> P x) -> filter P l = l.
Proof.
  induction l as [|x l IH]; intros Hall; [done|].
  rewrite filter_cons_True by (apply Hall; left).
  rewrite IH; [done|]. intros y Hy. apply Hall. by right.
Qed.

Lemma filter_none {A} (P : A -> Prop) `{forall x, Decision (P x)} (l : list A) :
  (forall x, x ∈ l -> ~ P x) -> filter P l = [].
Proof.
  induction l as [|x l IH]; intros Hall; [done|].
  rewrite filter_cons_False by (apply Hall; left).
  apply IH. intros y Hy. apply Hall. by right.
Qed.

Lemma remove_dups_NoDup {A} `{EqDecision A} (l : list A) :
  NoDup l -> remove_dups l = l.
Proof.
  induction 1 as [|x l Hx Hl IH]; [done|].
  cbn [remove_dups]. destruct (decide_rel elem_of x l) as [?|_]; [contradiction|].
  by rewrite IH.
Qed.

Lemma elem_of_concat_map {A B} (g : A -> list B) (l : list A) x y :
  x ∈ l -> y ∈ g x -> y ∈ concat (map g l).
Proof.
  induction 1 as [x l|x z l Hx IH]; intros Hy; cbn [map concat];
    apply elem_of_app; [by left|right; by apply IH].
Qed.

Lemma untracked_empty files : untracked [] files = files.
Proof. unfold untracked. by apply filter_all. Qed.

Lemma NoDup_outputPath files :
  NoDup (map Path.parse_name files) -> NoDup (map outputPath files).
Proof.
  induction files as [|f rest IH]; [done|]. cbn [map].
  rewrite !NoDup_cons. intros [Hf Hrest]. split; [|by apply IH].
  intros Hin. apply Hf. apply list_elem_of_fmap in Hin as (g & Hg & Hin).
  apply list_elem_of_fmap. exists g. split; [by apply outputPath_inj|done].
Qed.

Lemma NoDup_thumbPath files :
  NoDup (map Path.parse_name files) -> NoDup (map thumbPath files).
Proof.
  induction files as [|f rest IH]; [done|]. cbn [map].
  rewrite !NoDup_cons. intros [Hf Hrest]. split; [|by apply IH].
  intros Hin. apply Hf. apply list_elem_of_fmap in Hin as (g & Hg & Hin).
  apply list_elem_of_fmap. exists g. split; [by apply thumbPath_inj|done].
Qed.

Lemma tracked_app T T' f : tracked (T ++ T') f = tracked T f || tracked T' f.
Proof. unfold tracked, JsSet.mem. apply existsb_app. Qed.

Lemma tracked_names l f : tracked (map JString l) f = true <-> f ∈ l.
Proof.
  unfold tracked, JsSet.mem. rewrite existsb_exists. split.
  - intros (v & Hv & Heq). apply in_map_iff in Hv as (g & <- & Hg).
    simpl in Heq. apply String.eqb_eq in Heq as ->. by apply list_elem_of_In.
  - intros Hf. exists (JString f). split.
    + apply in_map. by apply list_elem_of_In.
    + simpl. apply String.eqb_refl.
Qed.

Lemma elem_of_newly_optimized e T files f :
  f ∈ newly_optimized e T files
  <-> f ∈ files /\ tracked T f = false
      /\ succeeds (optimize_attempt e (fullPath f) f) = true.
Proof.
  unfold newly_optimized, untracked. rewrite !list_elem_of_filter. tauto.
Qed.

(** After the loop a file that was not tracked is tracked exactly when
    its conversion succeeded. *)
Lemma tracked_after_run e T files f :
  f ∈ files -> tracked T f = false ->
  tracked (T ++ map JString (newly_optimized e T files)) f
  = succeeds (optimize_attempt e (fullPath f) f).
Proof.
  intros Hf HT. rewrite tracked_app, HT. cbn [orb].
  destruct (succeeds _) eqn:Hs.
  - apply tracked_names. apply elem_of_newly_optimized. by repeat split.
  - destruct (tracked (map JString _) f) eqn:Ht; [|reflexivity].
    apply tracked_names in Ht. apply elem_of_newly_optimized in Ht as (_ & _ & Ht).
    congruence.
Qed.


Lemma file_console_tracked e T files :
  (forall f, f ∈ files -> tracked T f = true) ->
  concat (map (file_console e T) files)
  = map (fun f => thumbnail_console e (fullPath f) f) files.
Proof.
  induction files as [|f rest IH]; intros Hall; [done|].
  cbn [map concat]. rewrite IH by (intros g Hg; apply Hall; by right).
  unfold file_console. by rewrite (Hall f ltac:(left)).
Qed.

Lemma file_console_untracked e T files :
  untracked T files = files ->
  concat (map (file_console e T) files)
  = concat (map (fun f => [optimize_console e (fullPath f) f;
                           thumbnail_console e (fullPath f) f]) files).
Proof.
  intros Hall.
  assert (H : forall f, f ∈ files -> tracked T f = false).
  { intros f Hf. rewrite <- Hall in Hf. by apply list_elem_of_filter in Hf as [? _]. }
  clear Hall. induction files as [|f rest IH]; [done|].
  cbn [map concat]. rewrite IH by (intros g Hg; apply H; by right).
  unfold file_console. by rewrite (H f ltac:(left)).
Qed.

Lemma includes_elem_of arr s : includes arr s = true <-> s ∈ arr.
Proof.
  unfold includes. rewrite existsb_exists. split.
  - intros (x & Hx & Heq). apply String.eqb_eq in Heq as ->. by apply list_elem_of_In.
  - intros H. exists s. split; [by apply list_elem_of_In|apply String.eqb_refl].
Qed.

(** ** The font size *)

Lemma Math_round_3_percent width :
  Math_round (inject_Z width * (3 # 100)) = ((3 * width + 50) / 100)%Z.
Proof.
  unfold Math_round, Qfloor, Qplus, Qmult, inject_Z. cbn [Qnum Qden].
  change (Z.pos (1 * 100 * 2)) with (2 * 100)%Z.
  replace (width * 3 * 2 + 1 * Z.pos (1 * 100))%Z with (2 * (3 * width + 50))%Z by lia.
  apply Z.div_mul_cancel_l; lia.
Qed.

Lemma fontSize_floor width : fontSize width = Z.max ((3 * width + 50) / 100) 18.
Proof. unfold fontSize, Math_max. by rewrite Math_round_3_percent. Qed.

(** ** Sample runs *)

Lemma all_members {A} (P : A -> Prop) (l : list A) :
  Forall P l -> forall x, x ∈ l -> P x.
Proof. intros H. by apply Forall_forall. Qed.

Lemma io_ok_sample names bad known :
  bool_decide (NoDup (map name (Examples.entries names))) = true ->
  io_ok (Examples.env names bad known) (Examples.entries names).
Proof.
  intros H. repeat split; try reflexivity. by apply bool_decide_eq_true in H.
Qed.

(* ===================================================================== *)
(** ** The specification, claim by claim *)
(* ===================================================================== *)

(** C1 (as amended).  A run that loads an empty tracker over a directory
    of N candidate images that all convert writes N optimized outputs and
    N thumbnails, one per candidate and in listing order, each of them on
    disk afterwards, and persists a tracker of exactly the N source
    names.  The outputs are N files of each kind when the candidates'
    base names are pairwise distinct. *)
Theorem fresh_run_outputs (e : Env) (w : World) (files : list Dirent) :
  io_ok e files ->
  loaded_tracker e w = [] ->
  (forall f, f ∈ imageFiles files ->
     succeeds (optimize_attempt e (fullPath f) f) = true
     /\ succeeds (thumbnail_attempt e (fullPath f) f) = true) ->
  let N := length (imageFiles files) in
  exists w',
    runOptimization e w = (Ok tt, w')
    /\ outputs_in OPTIMIZED_IMG_DIR w w' = map outputPath (imageFiles files)
    /\ outputs_in THUMBNAIL_DIR w w' = map thumbPath (imageFiles files)
    /\ length (outputs_in OPTIMIZED_IMG_DIR w w') = N
    /\ length (outputs_in THUMBNAIL_DIR w w') = N
    /\ (forall f, f ∈ imageFiles files ->
          is_Some (disk w' !! outputPath f) /\ is_Some (disk w' !! thumbPath f))
    /\ JsSet.elements w' (next_ref w) = map JString (imageFiles files)
    /\ length (JsSet.elements w' (next_ref w)) = N
    /\ disk w' !! TRACKER_FILE
       = Some (JSON_stringify e (JArray (map JString (imageFiles files))))
    /\ (NoDup (map Path.parse_name (imageFiles files)) ->
          files_in OPTIMIZED_IMG_DIR w w' = N
          /\ files_in THUMBNAIL_DIR w w' = N).
Proof.
  intros Hio Hempty Hall N.
  destruct (runOptimization_run e w files Hio) as (w' & Hrun & Hel & _ & Hw & Hdisk).
  rewrite Hempty in *. cbn [app] in *.
  assert (Hnew : newly_optimized e [] (imageFiles files) = imageFiles files).
  { unfold newly_optimized. rewrite untracked_empty.
    apply filter_all. intros f Hf. by apply Hall. }
  assert (Hth : thumbnailed e (imageFiles files) = imageFiles files).
  { apply filter_all. intros f Hf. by apply Hall. }
  destruct (outputs_of_run _ _ _ _ _ Hw) as [Hopt Hthumb].
  rewrite Hnew in *. rewrite Hth in Hthumb.
  exists w'. rewrite Hopt, Hthumb, Hel, !length_map.
  repeat split; try done.
  - destruct Hw as (_ & Hin & _). apply Hin.
    apply elem_of_app. left. apply (elem_of_concat_map _ _ f); [done|].
    unfold file_writes. cbn [tracked JsSet.mem existsb].
    rewrite (proj1 (Hall f H)). apply elem_of_app. left. by left.
  - destruct Hw as (_ & Hin & _). apply Hin.
    apply elem_of_app. left. apply (elem_of_concat_map _ _ f); [done|].
    unfold file_writes. rewrite (proj2 (Hall f H)). apply elem_of_app. right. by left.
  - unfold files_in. rewrite Hopt, remove_dups_NoDup, length_map; [done|].
    by apply NoDup_outputPath.
  - unfold files_in. rewrite Hthumb, remove_dups_NoDup, length_map; [done|].
    by apply NoDup_thumbPath.
Qed.

Lemma fresh_run_outputs_witness :
  io_ok Examples.two_images (Examples.entries ["ring.jpg"; "chain.png"])
  /\ loaded_tracker Examples.two_images Examples.empty_world = []
  /\ exists w',
       runOptimization Examples.two_images Examples.empty_world = (Ok tt, w')
       /\ files_in OPTIMIZED_IMG_DIR Examples.empty_world w' = 2%nat
       /\ files_in THUMBNAIL_DIR Examples.empty_world w' = 2%nat
       /\ JsSet.elements w' 0 = [JString "ring.jpg"; JString "chain.png"].
Proof.
  assert (Hio : io_ok Examples.two_images (Examples.entries ["ring.jpg"; "chain.png"])).
  { apply io_ok_sample. vm_compute. reflexivity. }
  split; [exact Hio|]. split; [reflexivity|].
  destruct (fresh_run_outputs Examples.two_images Examples.empty_world _ Hio)
    as (w' & Hrun & _ & _ & _ & _ & _ & Hel & _ & _ & Hfiles).
  - reflexivity.
  - apply all_members. vm_compute. repeat constructor.
  - exists w'. split; [exact Hrun|].
    destruct Hfiles as [H1 H2].
    + apply (bool_decide_unpack _). vm_compute. exact I.
    + split; [exact H1|]. split; [exact H2|exact Hel].
Defined.

(** C1 (as stated) fails where two candidates share a base name:
    [a.jpg] and [a.png] both convert and both are tracked, and both are
    written to the one file [a.webp], so that of two candidates one
    optimized output and one thumbnail exist. *)
Lemma fresh_run_same_base_name :
  io_ok Examples.same_base (Examples.entries ["a.jpg"; "a.png"])
  /\ loaded_tracker Examples.same_base Examples.empty_world = []
  /\ imageFiles (Examples.entries ["a.jpg"; "a.png"]) = ["a.jpg"; "a.png"]
  /\ forallb (fun f =>
                succeeds (optimize_attempt Examples.same_base (fullPath f) f)
                && succeeds (thumbnail_attempt Examples.same_base (fullPath f) f))
             (imageFiles (Examples.entries ["a.jpg"; "a.png"])) = true
  /\ exists w',
       runOptimization Examples.same_base Examples.empty_world = (Ok tt, w')
       /\ outputs_in OPTIMIZED_IMG_DIR Examples.empty_world w'
          = ["img/products/optimized/a.webp"; "img/products/optimized/a.webp"]
       /\ files_in OPTIMIZED_IMG_DIR Examples.empty_world w' = 1%nat
       /\ files_in THUMBNAIL_DIR Examples.empty_world w' = 1%nat
       /\ files_in OPTIMIZED_IMG_DIR Examples.empty_world w'
          <> length (imageFiles (Examples.entries ["a.jpg"; "a.png"]))
       /\ size (disk w') = 3%nat
       /\ JsSet.elements w' 0 = [JString "a.jpg"; JString "a.png"].
Proof.
  split.
  { apply io_ok_sample. vm_compute. reflexivity. }
  split; [reflexivity|]. split; [reflexivity|]. split; [reflexivity|].
  exists (snd (runOptimization Examples.same_base Examples.empty_world)).
  split; [vm_compute; reflexivity|]. split; [vm_compute; reflexivity|].
  split; [vm_compute; reflexivity|]. split; [vm_compute; reflexivity|].
  split; [vm_compute; discriminate|]. split; vm_compute; reflexivity.
Qed.

(** C2.  For every candidate whose conversion fails, [optimizeImage]
    returns normally, with the tracker set and the write log as they
    were, no file changed but the output it was writing (which is as it
    was, or holds what the failed write left), and one error line on the
    console; the run goes on through every candidate to its end, and the
    tracker it persists holds, of the files it handed to [optimizeImage],
    exactly those whose conversion succeeded. *)
Theorem failed_optimization_contained (e : Env) (w : World) (files : list Dirent) :
  io_ok e files ->
  (forall inputPath f trackerSet w0 error,
     f ∈ imageFiles files ->
     tracked (JsSet.elements w0 trackerSet) f = false ->
     optimize_attempt e inputPath f = Throw error ->
     exists w1,
       optimizeImage e inputPath f trackerSet w0 = (Ok tt, w1)
       /\ heap w1 = heap w0
       /\ disk w1 = disk (leave_file w0 (outputPath f)
                                     (optimize_residue e inputPath f))
       /\ (forall p, p <> outputPath f -> disk w1 !! p = disk w0 !! p)
       /\ (sharp_metadata e (Sharp.FromPath inputPath) = Throw error ->
           disk w1 = disk w0)
       /\ writes w1 = writes w0
       /\ console w1 = console w0 ++ [optimize_failed_line e f error]
       /\ (has_percent f = false ->
           optimize_failed_line e f error
           = console_error_line ("❌ Failed to optimize " +:+ f +:+ ": "
                                 +:+ message error)))
  /\ exists w',
       runOptimization e w = (Ok tt, w')
       /\ console w'
          = console w ++ header_console e w files
            ++ concat (map (file_console e (loaded_tracker e w)) (imageFiles files))
            ++ [report_line (length (untracked (loaded_tracker e w) (imageFiles files)))
                            (length (JsSet.elements w' (next_ref w)))]
       /\ disk w' !! TRACKER_FILE
          = Some (JSON_stringify e (JArray (JsSet.elements w' (next_ref w))))
       /\ forall f,
            f ∈ imageFiles files ->
            tracked (loaded_tracker e w) f = false ->
            tracked (JsSet.elements w' (next_ref w)) f
            = succeeds (optimize_attempt e (fullPath f) f).
Proof.
  intros Hio. split.
  - intros inputPath f t w0 error Hf Ht Hfail.
    exists (print (leave_file w0 (outputPath f) (optimize_residue e inputPath f))
                  (optimize_failed_line e f error)).
    rewrite optimizeImage_run. unfold optimize_effect.
    apply elem_of_imageFiles in Hf as (d & _ & Hd & <-).
    rewrite Ht, (image_file_not_webp _ Hd), Hfail.
    split; [reflexivity|].
    destruct (wrote_left w0 (outputPath (name d))
                (optimize_residue e inputPath (name d))) as (Hwr & _ & _ & Hout).
    rewrite app_nil_r in Hwr.
    split; [by destruct (optimize_residue e inputPath (name d))|].
    split; [done|]. split.
    { intros p Hp. apply Hout; [apply not_elem_of_nil|].
      intros Hin. by apply list_elem_of_singleton in Hin. }
    split.
    { intros Hmd. unfold optimize_residue. by rewrite Hmd. }
    split; [exact Hwr|]. split.
    { by destruct (optimize_residue e inputPath (name d)). }
    apply optimize_failed_line_plain.
  - destruct (runOptimization_run e w files Hio) as (w' & Hrun & Hel & Hc & _ & Hdisk).
    exists w'. rewrite Hel. split; [done|]. split; [done|]. split; [done|].
    intros f Hf Ht. by apply tracked_after_run.
Qed.

Lemma failed_optimization_contained_witness :
  io_ok Examples.one_bad (Examples.entries ["ring.jpg"; "broken.png"])
  /\ exists w',
       runOptimization Examples.one_bad Examples.empty_world = (Ok tt, w')
       /\ tracked (JsSet.elements w' 0) "ring.jpg" = true
       /\ tracked (JsSet.elements w' 0) "broken.png" = false.
Proof.
  assert (Hio : io_ok Examples.one_bad (Examples.entries ["ring.jpg"; "broken.png"])).
  { apply io_ok_sample. vm_compute. reflexivity. }
  split; [exact Hio|].
  destruct (failed_optimization_contained Examples.one_bad Examples.empty_world _ Hio)
    as (_ & w' & Hrun & _ & _ & Htracked).
  exists w'. split; [exact Hrun|]. split.
  - etrans; [apply (Htracked "ring.jpg")|reflexivity]; [|reflexivity].
    apply (bool_decide_unpack _). vm_compute. exact I.
  - etrans; [apply (Htracked "broken.png")|reflexivity]; [|reflexivity].
    apply (bool_decide_unpack _). vm_compute. exact I.
Defined.






(** C5 (as amended).  [createThumbnail] neither reads nor changes the
    heap, where the tracker set lives, and a run calls it for every
    candidate, tracked or not: each candidate leaves its thumbnail line
    on the console, after its optimize line if it has one, and the
    thumbnails written are those of the candidates whose thumbnail
    conversion succeeds, in listing order: all of them when none fails.
    Over a directory whose candidates are all tracked the run writes no
    optimized output, leaves the tracker as loaded, and still writes
    these thumbnails. *)
Theorem thumbnails_every_run (e : Env) (w : World) (files : list Dirent) :
  io_ok e files ->
  (forall inputPath filename w0 h,
     exists w1,
       createThumbnail e inputPath filename w0 = (Ok tt, w1)
       /\ heap w1 = heap w0
       /\ createThumbnail e inputPath filename (set_heap w0 h)
          = (Ok tt, set_heap w1 h))
  /\ let T := loaded_tracker e w in
     exists w',
       runOptimization e w = (Ok tt, w')
       /\ console w'
          = console w ++ header_console e w files
            ++ concat (map (fun f =>
                              (if tracked T f then []
                               else [optimize_console e (fullPath f) f])
                              ++ [thumbnail_console e (fullPath f) f])
                           (imageFiles files))
            ++ [report_line (length (untracked T (imageFiles files)))
                            (length (JsSet.elements w' (next_ref w)))]
       /\ outputs_in THUMBNAIL_DIR w w' = map thumbPath (thumbnailed e (imageFiles files))
       /\ (forall f, f ∈ thumbnailed e (imageFiles files) ->
             is_Some (disk w' !! thumbPath f))
       /\ ((forall f, f ∈ imageFiles files ->
              succeeds (thumbnail_attempt e (fullPath f) f) = true) ->
           outputs_in THUMBNAIL_DIR w w' = map thumbPath (imageFiles files))
       /\ ((forall f, f ∈ imageFiles files -> tracked T f = true) ->
           outputs_in OPTIMIZED_IMG_DIR w w' = []
           /\ JsSet.elements w' (next_ref w) = T
           /\ console w'
              = console w ++ header_console e w files
                ++ map (fun f => thumbnail_console e (fullPath f) f) (imageFiles files)
                ++ [report_line 0 (length T)]).
Proof.
  intros Hio. split.
  - intros inputPath filename w0 h.
    exists (thumbnail_effect e inputPath filename w0).
    rewrite !createThumbnail_run.
    destruct (thumbnail_effect_spec e inputPath filename w0) as (Hh & _).
    split; [done|]. split; [done|].
    unfold thumbnail_effect. destruct (thumbnail_attempt _ _ _); [done|].
    by destruct (thumbnail_residue _ _ _).
  - intros T.
    destruct (runOptimization_run e w files Hio) as (w' & Hrun & Hel & Hc & Hw & _).
    fold T in Hel, Hc, Hw.
    destruct (outputs_of_run _ _ _ _ _ Hw) as [Hopt Hthumb].
    exists w'. rewrite Hel. split; [done|]. split; [exact Hc|].
    split; [exact Hthumb|]. split; [|split].
    + intros f Hf. destruct Hw as (_ & Hin & _). apply Hin.
      apply list_elem_of_filter in Hf as [Hok Hf].
      apply elem_of_app. left. apply (elem_of_concat_map _ _ f); [done|].
      unfold file_writes. rewrite Hok. apply elem_of_app. right. by left.
    + intros Hall. rewrite Hthumb. f_equal. by apply filter_all.
    + intros Hall.
      assert (Hnone : untracked T (imageFiles files) = []).
      { apply filter_none. intros f Hf. rewrite (Hall f Hf). done. }
      assert (Hnew : newly_optimized e T (imageFiles files) = []).
      { unfold newly_optimized. by rewrite Hnone. }
      rewrite Hopt, Hc, Hnew, Hnone, (file_console_tracked _ _ _ Hall).
      cbn [map length]. by rewrite app_nil_r.
Qed.

Lemma thumbnails_every_run_witness :
  io_ok Examples.two_images (Examples.entries ["ring.jpg"; "chain.png"])
  /\ exists w',
       runOptimization Examples.two_images Examples.after_two_images = (Ok tt, w')
       /\ outputs_in OPTIMIZED_IMG_DIR Examples.after_two_images w' = []
       /\ outputs_in THUMBNAIL_DIR Examples.after_two_images w'
          = ["img/products/thumbnail/ring.webp"; "img/products/thumbnail/chain.webp"].
Proof.
  assert (Hio : io_ok Examples.two_images (Examples.entries ["ring.jpg"; "chain.png"])).
  { apply io_ok_sample. vm_compute. reflexivity. }
  split; [exact Hio|].
  destruct (thumbnails_every_run Examples.two_images Examples.after_two_images _ Hio)
    as (_ & w' & Hrun & _ & _ & _ & Hthumbs & Htracked).
  exists w'. split; [exact Hrun|]. split.
  - apply Htracked. apply all_members. vm_compute. repeat constructor.
  - rewrite Hthumbs; [reflexivity|].
    apply all_members. vm_compute. repeat constructor.
Defined.

(** C5 (as stated) fails where a thumbnail conversion fails: of two
    tracked candidates, one of which sharp cannot decode, the run writes
    one thumbnail and prints an error line for the other, whose thumbnail
    is not on disk. *)
Lemma thumbnail_not_regenerated :
  io_ok Examples.tracked_bad (Examples.entries ["ring.jpg"; "broken.png"])
  /\ imageFiles (Examples.entries ["ring.jpg"; "broken.png"])
     = ["ring.jpg"; "broken.png"]
  /\ forallb (tracked (loaded_tracker Examples.tracked_bad Examples.both_tracked))
             (imageFiles (Examples.entries ["ring.jpg"; "broken.png"])) = true
  /\ exists w',
       runOptimization Examples.tracked_bad Examples.both_tracked = (Ok tt, w')
       /\ outputs_in OPTIMIZED_IMG_DIR Examples.both_tracked w' = []
       /\ outputs_in THUMBNAIL_DIR Examples.both_tracked w'
          = ["img/products/thumbnail/ring.webp"]
       /\ outputs_in THUMBNAIL_DIR Examples.both_tracked w'
          <> map thumbPath (imageFiles (Examples.entries ["ring.jpg"; "broken.png"]))
       /\ thumbPath "broken.png" = "img/products/thumbnail/broken.webp"
       /\ disk w' !! thumbPath "broken.png" = None
       /\ last (removelast (console w'))
          = Some (console_error_line
                    "❌ Failed to create thumbnail for broken.png: Input file contains unsupported image format").
Proof.
  split.
  { apply io_ok_sample. vm_compute. reflexivity. }
  split; [reflexivity|]. split; [vm_compute; reflexivity|].
  exists (snd (runOptimization Examples.tracked_bad Examples.both_tracked)).
  split; [vm_compute; reflexivity|]. split; [vm_compute; reflexivity|].
  split; [vm_compute; reflexivity|]. split; [vm_compute; discriminate|].
  split; [vm_compute; reflexivity|]. split; vm_compute; reflexivity.
Qed.

(** C6.  A directory entry is a candidate exactly when it is a regular
    file, its name does not start with a dot, does not end with ".webp",
    is not the tracker file's name, and its extension, lower-cased, is
    jpg, jpeg, png or gif.  The candidates of a listing are the names of
    the entries that meet this, each where the listing has it, and they
    are the files a run goes through: it prints the lines of each and
    writes the outputs of each, and of no other entry.  An entry whose
    extension lower-cases to ".webp" is no candidate, so no run hands it
    to [optimizeImage] or to [createThumbnail]. *)
Theorem candidate_filter (f : Dirent) :
  (is_image_file f = true
   <-> isFile f = true
       /\ startsWith (name f) "." = false
       /\ endsWith (name f) ".webp" = false
       /\ name f <> "optimized_images.json"
       /\ toLowerCase (slice_from (Path.extname (name f)) 1)
          ∈ ["jpg"; "jpeg"; "png"; "gif"])
  /\ (forall files,
        imageFiles (f :: files)
        = if is_image_file f then name f :: imageFiles files
          else imageFiles files)
  /\ (forall files,
        f ∈ files -> is_image_file f = true -> name f ∈ imageFiles files)
  /\ (forall files,
        name f ∈ imageFiles files
        <-> exists g, g ∈ files /\ name g = name f /\ is_image_file g = true)
  /\ (forall e w files,
        io_ok e files ->
        exists w',
          runOptimization e w = (Ok tt, w')
          /\ console w'
             = console w ++ header_console e w files
               ++ concat (map (file_console e (loaded_tracker e w)) (imageFiles files))
               ++ [report_line
                     (length (untracked (loaded_tracker e w) (imageFiles files)))
                     (length (JsSet.elements w' (next_ref w)))]
          /\ written_during w w'
             = concat (map (file_writes e (loaded_tracker e w)) (imageFiles files))
               ++ [TRACKER_FILE])
  /\ (toLowerCase (Path.extname (name f)) = ".webp" ->
      is_image_file f = false
      /\ forall files, name f ∉ imageFiles files).
Proof.
  split; [|split; [|split; [|split; [|split]]]].
  2:{ intros files. unfold imageFiles. destruct (is_image_file f) eqn:E.
      - by rewrite filter_cons_True.
      - by rewrite filter_cons_False by congruence. }
  2:{ intros files Hin Hf. apply elem_of_imageFiles. by exists f. }
  2:{ intros files. rewrite elem_of_imageFiles. split.
      - intros (g & Hg & Hi & Hn). by exists g.
      - intros (g & Hg & Hn & Hi). by exists g. }
  2:{ intros e w files Hio.
      destruct (runOptimization_run e w files Hio) as (w' & Hrun & Hel & Hc & Hw & _).
      exists w'. rewrite Hel. split; [done|]. split; [done|].
      by apply (written_during_wrote _ _ _ _ Hw). }
  - rewrite <- includes_elem_of. unfold is_image_file.
    rewrite !andb_true_iff, !negb_true_iff. split.
    + intros ((((H1 & H2) & H3) & H4) & H5). repeat split; try done.
      intros Hname. rewrite Hname in H4. vm_compute in H4. discriminate H4.
    + intros (H1 & H2 & H3 & H4 & H5). repeat split; try done.
      destruct (endsWith (name f) (Path.basename TRACKER_FILE)) eqn:E; [|done].
      rewrite (tracker_name_not_image _ E) in H5. discriminate.
  - intros Hext.
    assert (Hno : forall g, name g = name f -> is_image_file g = false).
    { intros g Hg. destruct (is_image_file g) eqn:E; [|done].
      apply image_file_not_webp in E. rewrite Hg, Hext in E. discriminate. }
    split; [by apply Hno|].
    intros files Hin. apply elem_of_imageFiles in Hin as (g & _ & Hg & Hname).
    rewrite (Hno g Hname) in Hg. discriminate.
Qed.

Lemma candidate_filter_witness :
  is_image_file (mkDirent "Ring.JPG" true) = true
  /\ "Ring.JPG" ∈ imageFiles [mkDirent "notes.txt" true; mkDirent "Ring.JPG" true]
  /\ is_image_file (mkDirent "ring.WEBP" true) = false.
Proof.
  destruct (candidate_filter (mkDirent "Ring.JPG" true)) as (Hiff & _ & Hmem & _).
  assert (Hring : is_image_file (mkDirent "Ring.JPG" true) = true).
  { apply Hiff.
    repeat split; try reflexivity; try discriminate.
    apply (bool_decide_unpack _). vm_compute. exact I. }
  split; [exact Hring|]. split.
  - apply (Hmem [mkDirent "notes.txt" true; mkDirent "Ring.JPG" true]);
      [|exact Hring].
    right. left.
  - destruct (candidate_filter (mkDirent "ring.WEBP" true))
      as (_ & _ & _ & _ & _ & Hwebp).
    apply Hwebp. reflexivity.
Defined.

(** C7.  [getOptimizedTracker] always returns a set and never throws.
    The set is empty, and nothing is printed, when the tracker file does
    not exist; it is empty, and the error is printed unless its code is
    ENOENT, when the file cannot be read, is not JSON, or is JSON that
    cannot be iterated.  A run that meets such a file hands every
    candidate to [optimizeImage] and ends normally. *)
Theorem tracker_load_degrades (e : Env) (w : World) :
  exists w',
    getOptimizedTracker e w = (Ok (next_ref w), w')
    /\ disk w' = disk w
    /\ (fs_readFile_fault e TRACKER_FILE = None ->
        disk w !! TRACKER_FILE = None ->
        JsSet.elements w' (next_ref w) = [] /\ console w' = console w)
    /\ (forall error,
          tracker_read e w = Throw error ->
          JsSet.elements w' (next_ref w) = []
          /\ console w'
             = console w
               ++ (if bool_decide (code error = Some "ENOENT") then []
                   else [console_error_line
                           ("Error reading tracker file: " +:+ message error)]))
    /\ (forall error, fs_readFile_fault e TRACKER_FILE = Some error ->
          tracker_read e w = Throw error)
    /\ (forall data error,
          fs_readFile_fault e TRACKER_FILE = None ->
          disk w !! TRACKER_FILE = Some data ->
          JSON_parse e data = Throw error ->
          tracker_read e w = Throw error)
    /\ (forall files,
          io_ok e files ->
          succeeds (tracker_read e w) = false ->
          exists w'',
            runOptimization e w = (Ok tt, w'')
            /\ untracked (loaded_tracker e w) (imageFiles files) = imageFiles files
            /\ console w''
               = console w ++ header_console e w files
                 ++ concat (map (fun f => [optimize_console e (fullPath f) f;
                                           thumbnail_console e (fullPath f) f])
                                (imageFiles files))
                 ++ [report_line (length (imageFiles files))
                                 (length (JsSet.elements w'' (next_ref w)))]).
Proof.
  eexists. split; [apply getOptimizedTracker_run|].
  split; [done|]. unfold JsSet.elements. cbn [heap console].
  rewrite lookup_insert_eq. cbn [default].
  split; [|split; [|split; [|split]]].
  - intros Hfault Hmissing. unfold loaded_tracker, load_console, tracker_read.
    rewrite Hfault, Hmissing. cbn. by rewrite app_nil_r.
  - intros error Herr. unfold loaded_tracker, load_console. by rewrite Herr.
  - intros error Hfault. unfold tracker_read. by rewrite Hfault.
  - intros data error Hfault Hdata Hparse. unfold tracker_read.
    by rewrite Hfault, Hdata, Hparse.
  - intros files Hio Hfail.
    destruct (runOptimization_run e w files Hio) as (w'' & Hrun & Hel & Hc & _).
    assert (Hempty : loaded_tracker e w = []).
    { unfold loaded_tracker. by destruct (tracker_read e w). }
    rewrite Hempty in *. exists w''.
    fold (JsSet.elements w'' (next_ref w)). rewrite Hel.
    split; [done|]. split; [apply untracked_empty|].
    rewrite Hc, untracked_empty.
    by rewrite (file_console_untracked _ _ _ (untracked_empty _)).
Qed.

Lemma tracker_load_degrades_witness :
  exists w',
    getOptimizedTracker Examples.two_images Examples.empty_world = (Ok 0%nat, w')
    /\ JsSet.elements w' 0 = []
    /\ console w' = [].
Proof.
  destruct (tracker_load_degrades Examples.two_images Examples.empty_world)
    as (w' & Hrun & _ & Hmissing & _).
  exists w'. split; [exact Hrun|]. apply Hmissing; reflexivity.
Defined.

(** C8.  For a positive width the font size is
    max(round(width * 0.03), 18), the product taken exactly; it is what
    the overlay carries in its font-size attribute, it is never below 18,
    and it does not decrease when the width grows. *)
Theorem fontSize_floor_and_monotone (width width' height : Z) :
  (0 < width)%Z ->
  (width <= width')%Z ->
  fontSize width = Z.max (Math_round (inject_Z width * (3 # 100))) 18
  /\ fontSize width = Z.max ((3 * width + 50) / 100) 18
  /\ (18 <= fontSize width)%Z
  /\ (fontSize width <= fontSize width')%Z
  /\ exists before after,
       createWatermarkSVG width height
       = before +:+ "font-size=" +:+ dq +:+ of_Z (fontSize width) +:+ dq +:+ after.
Proof.
  intros Hpos Hle. split; [reflexivity|]. split; [apply fontSize_floor|].
  split; [|split].
  - rewrite fontSize_floor. apply Z.le_max_r.
  - rewrite !fontSize_floor. apply Z.max_le_compat_r.
    apply Z.div_le_mono; lia.
  - unfold createWatermarkSVG. cbv zeta.
    eexists (nl +:+ "    <svg width=" +:+ dq +:+ of_Z width +:+ dq
             +:+ " height=" +:+ dq +:+ of_Z height +:+ dq +:+ ">" +:+ nl
             +:+ "      <text" +:+ nl
             +:+ "        x=" +:+ dq +:+ "50%" +:+ dq +:+ nl
             +:+ "        y=" +:+ dq +:+ of_Z (height - padding width) +:+ dq +:+ nl
             +:+ "        text-anchor=" +:+ dq +:+ "middle" +:+ dq +:+ nl
             +:+ "        "), _.
    rewrite !append_assoc. reflexivity.
Qed.

Lemma fontSize_floor_and_monotone_witness :
  (0 < 400)%Z /\ (400 <= 4000)%Z
  /\ fontSize 400 = 18%Z /\ fontSize 4000 = 120%Z
  /\ (fontSize 400 <= fontSize 4000)%Z.
Proof.
  assert (H1 : (0 < 400)%Z) by lia. assert (H2 : (400 <= 4000)%Z) by lia.
  destruct (fontSize_floor_and_monotone 400 4000 300 H1 H2) as (_ & _ & _ & Hmono & _).
  split; [exact H1|]. split; [exact H2|]. split; [reflexivity|]. split; [reflexivity|].
  exact Hmono.
Defined.

(** C10.  The tracker set only grows.  [optimizeImage] leaves it as it
    was or appends the file name, and appends only after a conversion
    that succeeded; [createThumbnail] does not touch the heap.  So the
    set a run persists is the set it loaded followed by the names it
    added, all of them candidates that converted: every loaded entry is
    persisted, whether or not the directory still has a file of that
    name. *)
Theorem tracker_only_grows (e : Env) (w : World) (files : list Dirent) :
  io_ok e files ->
  (forall inputPath filename trackerSet w0,
     exists w1,
       optimizeImage e inputPath filename trackerSet w0 = (Ok tt, w1)
       /\ (JsSet.elements w1 trackerSet = JsSet.elements w0 trackerSet
           \/ (JsSet.elements w1 trackerSet
               = JsSet.elements w0 trackerSet ++ [JString filename]
               /\ succeeds (optimize_attempt e inputPath filename) = true)))
  /\ (forall inputPath filename w0,
        exists w1,
          createThumbnail e inputPath filename w0 = (Ok tt, w1)
          /\ heap w1 = heap w0)
  /\ exists w' added,
       runOptimization e w = (Ok tt, w')
       /\ JsSet.elements w' (next_ref w) = loaded_tracker e w ++ map JString added
       /\ (forall f, f ∈ added ->
             f ∈ imageFiles files
             /\ succeeds (optimize_attempt e (fullPath f) f) = true)
       /\ (forall v, v ∈ loaded_tracker e w -> v ∈ JsSet.elements w' (next_ref w))
       /\ disk w' !! TRACKER_FILE
          = Some (JSON_stringify e (JArray (loaded_tracker e w ++ map JString added))).
Proof.
  intros Hio. split; [|split].
  - intros inputPath filename t w0.
    exists (optimize_effect e inputPath filename t w0).
    split; [apply optimizeImage_run|]. unfold optimize_effect.
    destruct (tracked _ filename) eqn:Ht; [by left|].
    destruct (String.eqb _ _); [by left|].
    destruct (optimize_attempt e inputPath filename) as [bytes|error].
    + right. by rewrite elements_set_heap, (insert_untracked _ _ Ht).
    + left. unfold JsSet.elements.
      by destruct (optimize_residue e inputPath filename).
  - intros inputPath filename w0.
    exists (thumbnail_effect e inputPath filename w0).
    split; [apply createThumbnail_run|].
    by destruct (thumbnail_effect_spec e inputPath filename w0) as (Hh & _).
  - destruct (runOptimization_run e w files Hio) as (w' & Hrun & Hel & _ & _ & Hdisk).
    exists w', (newly_optimized e (loaded_tracker e w) (imageFiles files)).
    rewrite Hel. split; [done|]. split; [done|]. split; [|split; [|done]].
    + intros f Hf. apply elem_of_newly_optimized in Hf. tauto.
    + intros v Hv. apply elem_of_app. by left.
Qed.

Lemma tracker_only_grows_witness :
  io_ok Examples.chain_removed (Examples.entries ["ring.jpg"])
  /\ exists w' added,
       runOptimization Examples.chain_removed Examples.after_two_images = (Ok tt, w')
       /\ JsSet.elements w' (next_ref Examples.after_two_images)
          = [JString "ring.jpg"; JString "chain.png"] ++ map JString added
       /\ JString "chain.png" ∈ JsSet.elements w' (next_ref Examples.after_two_images).
Proof.
  assert (Hio : io_ok Examples.chain_removed (Examples.entries ["ring.jpg"])).
  { apply io_ok_sample. vm_compute. reflexivity. }
  split; [exact Hio|].
  destruct (tracker_only_grows Examples.chain_removed Examples.after_two_images _ Hio)
    as (_ & _ & w' & added & Hrun & Hel & _ & Hkept & _).
  exists w', added. split; [exact Hrun|]. split.
  - etrans; [exact Hel|reflexivity].
  - apply Hkept.
    assert (Hloaded : loaded_tracker Examples.chain_removed Examples.after_two_images
                      = [JString "ring.jpg"; JString "chain.png"])
      by (vm_compute; reflexivity).
    rewrite Hloaded. apply list_elem_of_In. right. left. reflexivity.
Defined.

(* ===================================================================== *)
(** ** Further properties of the script *)
(* ===================================================================== *)

(** ** Runs that do not reach their end *)

(** The world when [runOptimization] has loaded the tracker and printed
    its size. *)
Lemma runOptimization_loaded e w :
  fs_mkdir e OPTIMIZED_IMG_DIR = Ok tt ->
  fs_mkdir e THUMBNAIL_DIR = Ok tt ->
  forall files,
    fs_readdir e IMG_DIR = Ok files ->
    runOptimization e w
    = (let* processedCount := for_each_file e (next_ref w) (imageFiles files) 0 in
       updateOptimizedTracker e (next_ref w) ;;;
       let* size := JsSet.size (next_ref w) in
       console_log ("--- Optimization complete. Processed " +:+ of_nat processedCount
                    +:+ " new images. Tracker now has " +:+ of_nat size
                    +:+ " entries. ---"))
        (mkWorld (<[next_ref w := loaded_tracker e w]> (heap w)) (S (next_ref w))
                 (disk w) (writes w) (console w ++ header_console e w files)).
Proof.
  intros Hmk1 Hmk2 files Hdir. unfold runOptimization.
  unfold bind at 1. unfold console_log at 1.
  unfold bind at 1. unfold Fs.mkdir at 1, lift at 1. rewrite Hmk1.
  unfold bind at 1. unfold Fs.mkdir at 1, lift at 1. rewrite Hmk2.
  unfold bind at 1. rewrite getOptimizedTracker_run.
  unfold bind at 1. unfold JsSet.size at 1.
  unfold bind at 1. unfold console_log at 1.
  unfold bind at 1. unfold Fs.readdir at 1, lift at 1. rewrite Hdir.
  unfold bind at 1. unfold console_log at 1.
  change (next_ref (print w _)) with (next_ref w).
  f_equal. unfold header_console, print, JsSet.elements. simpl.
  rewrite lookup_insert_eq. simpl. by rewrite <- !app_assoc.
Qed.

Lemma elem_of_concat_map_inv {A B} (g : A -> list B) (l : list A) y :
  y ∈ concat (map g l) -> exists x, x ∈ l /\ y ∈ g x.
Proof.
  induction l as [|x l IH]; cbn [map concat]; intros H.
  - by apply elem_of_nil in H.
  - apply elem_of_app in H as [H|H].
    + exists x. split; [by left|done].
    + destruct (IH H) as (z & Hz & Hy). exists z. split; [by right|done].
Qed.

(** What one file of the loop writes is its optimized output or its
    thumbnail. *)
Lemma elem_of_file_writes e T f p :
  p ∈ file_writes e T f ->
  (p = outputPath f /\ tracked T f = false
   /\ succeeds (optimize_attempt e (fullPath f) f) = true)
  \/ (p = thumbPath f /\ succeeds (thumbnail_attempt e (fullPath f) f) = true).
Proof.
  unfold file_writes. intros H. apply elem_of_app in H as [H|H].
  - left. destruct (tracked T f); [by apply elem_of_nil in H|].
    destruct (succeeds (optimize_attempt e (fullPath f) f)); [|by apply elem_of_nil in H].
    by apply list_elem_of_singleton in H.
  - right. destruct (succeeds (thumbnail_attempt e (fullPath f) f));
      [|by apply elem_of_nil in H].
    by apply list_elem_of_singleton in H.
Qed.

Lemma tracker_not_in_file_writes e T files :
  TRACKER_FILE ∉ concat (map (file_writes e T) files).
Proof.
  intros H. apply elem_of_concat_map_inv in H as (f & _ & H).
  apply elem_of_file_writes in H as [(H & _)|(H & _)].
  - pose proof (outputPath_in_optimized f) as Hd. rewrite <- H in Hd.
    by rewrite tracker_in_optimized in Hd.
  - pose proof (thumbPath_in_thumbnail f) as Hd. rewrite <- H in Hd.
    by rewrite tracker_in_thumbnail in Hd.
Qed.

(** What one file of the loop can change is its optimized output or its
    thumbnail. *)
Lemma elem_of_targets T files p :
  p ∈ concat (map (file_targets T) files) ->
  exists f, f ∈ files /\ (p = outputPath f \/ p = thumbPath f).
Proof.
  intros H. apply elem_of_concat_map_inv in H as (f & Hf & H).
  exists f. split; [done|]. unfold file_targets in H.
  apply elem_of_app in H as [H|H].
  - left. destruct (tracked T f); [by apply elem_of_nil in H|].
    by apply list_elem_of_singleton in H.
  - right. by apply list_elem_of_singleton in H.
Qed.

Lemma targets_in_outputs T files p :
  p ∈ concat (map (file_targets T) files) ->
  in_dir OPTIMIZED_IMG_DIR p = true \/ in_dir THUMBNAIL_DIR p = true.
Proof.
  intros H. apply elem_of_targets in H as (f & _ & [-> | ->]).
  - left. apply outputPath_in_optimized.
  - right. apply thumbPath_in_thumbnail.
Qed.

Lemma tracker_not_in_targets T files :
  TRACKER_FILE ∉ concat (map (file_targets T) files).
Proof.
  intros H. apply targets_in_outputs in H as [H|H].
  - by rewrite tracker_in_optimized in H.
  - by rewrite tracker_in_thumbnail in H.
Qed.

(** X1.  When an output directory cannot be made, [runOptimization]
    throws the error of [fs.mkdir] at once: it has printed its first line
    and nothing else, loaded no tracker and written no file. *)
Theorem run_stops_without_output_directory (e : Env) (w : World) (error : JsError) :
  fs_mkdir e OPTIMIZED_IMG_DIR = Throw error
  \/ (fs_mkdir e OPTIMIZED_IMG_DIR = Ok tt /\ fs_mkdir e THUMBNAIL_DIR = Throw error) ->
  runOptimization e w
  = (Throw error,
     print w (console_log_line
                ("--- Starting Image Optimization at " +:+ now_iso e +:+ " ---"))).
Proof.
  intros [H1|[H1 H2]]; unfold runOptimization.
  - unfold bind at 1. unfold console_log at 1.
    unfold bind at 1. unfold Fs.mkdir at 1, lift at 1. by rewrite H1.
  - unfold bind at 1. unfold console_log at 1.
    unfold bind at 1. unfold Fs.mkdir at 1, lift at 1. rewrite H1.
    unfold bind at 1. unfold Fs.mkdir at 1, lift at 1. by rewrite H2.
Qed.

Lemma run_stops_without_output_directory_witness :
  exists w',
    runOptimization Faults.no_mkdir Examples.empty_world = (Throw Faults.EACCES, w')
    /\ writes w' = [] /\ heap w' = ∅ /\ length (console w') = 1%nat.
Proof.
  eexists. split.
  - apply (run_stops_without_output_directory Faults.no_mkdir Examples.empty_world).
    left. reflexivity.
  - repeat split.
Defined.

(** X2.  When the source directory cannot be listed, [runOptimization]
    throws the error of [fs.readdir] after it has loaded the tracker: no
    file is written, the tracker file is as it was, and the console ends
    with the size of the loaded tracker. *)
Theorem run_stops_without_listing (e : Env) (w : World) (error : JsError) :
  fs_mkdir e OPTIMIZED_IMG_DIR = Ok tt ->
  fs_mkdir e THUMBNAIL_DIR = Ok tt ->
  fs_readdir e IMG_DIR = Throw error ->
  exists w',
    runOptimization e w = (Throw error, w')
    /\ disk w' = disk w
    /\ writes w' = writes w
    /\ JsSet.elements w' (next_ref w) = loaded_tracker e w
    /\ console w'
       = console w
         ++ [console_log_line
               ("--- Starting Image Optimization at " +:+ now_iso e +:+ " ---")]
         ++ load_console e w
         ++ [console_log_line
               ("Tracker currently has "
                +:+ of_nat (length (loaded_tracker e w)) +:+ " entries.")].
Proof.
  intros Hmk1 Hmk2 Hdir. eexists. split.
  - unfold runOptimization.
    unfold bind at 1. unfold console_log at 1.
    unfold bind at 1. unfold Fs.mkdir at 1, lift at 1. rewrite Hmk1.
    unfold bind at 1. unfold Fs.mkdir at 1, lift at 1. rewrite Hmk2.
    unfold bind at 1. rewrite getOptimizedTracker_run.
    unfold bind at 1. unfold JsSet.size at 1.
    unfold bind at 1. unfold console_log at 1.
    unfold bind at 1. unfold Fs.readdir at 1, lift at 1. rewrite Hdir.
    reflexivity.
  - unfold JsSet.elements, print. simpl. rewrite lookup_insert_eq. simpl.
    repeat split. by rewrite <- !app_assoc.
Qed.

Lemma run_stops_without_listing_witness :
  exists w',
    runOptimization Faults.no_readdir Examples.after_two_images = (Throw Faults.EACCES, w')
    /\ disk w' = disk Examples.after_two_images
    /\ JsSet.elements w' (next_ref Examples.after_two_images)
       = [JString "ring.jpg"; JString "chain.png"].
Proof.
  destruct (run_stops_without_listing Faults.no_readdir Examples.after_two_images
              Faults.EACCES eq_refl eq_refl eq_refl)
    as (w' & Hrun & Hdisk & _ & Hel & _).
  exists w'. split; [exact Hrun|]. split; [exact Hdisk|].
  etrans; [exact Hel|]. vm_compute. reflexivity.
Defined.

(** X3.  When the tracker file cannot be written, [runOptimization]
    throws the error of [fs.writeFile] after the loop: the optimized
    outputs and the thumbnails of the run are written and the names are
    in the set, but they are not saved.  The tracker file holds what the
    failed write left: its content of before the run when the file could
    not be opened, a truncated or partial text otherwise.  The closing
    line is not printed. *)
Theorem run_loses_tracker_when_save_fails (e : Env) (w : World)
    (files : list Dirent) (error : JsError) :
  fs_mkdir e OPTIMIZED_IMG_DIR = Ok tt ->
  fs_mkdir e THUMBNAIL_DIR = Ok tt ->
  fs_readdir e IMG_DIR = Ok files ->
  NoDup (map name files) ->
  fs_writeFile_fault e TRACKER_FILE = Some error ->
  let T := loaded_tracker e w in
  let T' := T ++ map JString (newly_optimized e T (imageFiles files)) in
  exists w',
    runOptimization e w = (Throw error, w')
    /\ disk w' !! TRACKER_FILE
       = match fs_writeFile_partial e TRACKER_FILE (JSON_stringify e (JArray T')) with
         | Some part => Some part
         | None => disk w !! TRACKER_FILE
         end
    /\ written_during w w' = concat (map (file_writes e T) (imageFiles files))
    /\ (forall f, f ∈ newly_optimized e T (imageFiles files) ->
          is_Some (disk w' !! outputPath f))
    /\ JsSet.elements w' (next_ref w)
       = T ++ map JString (newly_optimized e T (imageFiles files))
    /\ console w'
       = console w ++ header_console e w files
         ++ concat (map (file_console e T) (imageFiles files)).
Proof.
  intros Hmk1 Hmk2 Hdir Hnd Hfault T T'.
  rewrite (runOptimization_loaded e w Hmk1 Hmk2 files Hdir).
  set (w1 := mkWorld _ _ _ _ _).
  assert (Hel1 : JsSet.elements w1 (next_ref w) = T).
  { unfold JsSet.elements, w1. simpl. by rewrite lookup_insert_eq. }
  destruct (for_each_file_run e (next_ref w) T (imageFiles files)
              (NoDup_imageFiles _ Hnd)) with (processedCount := 0%nat) (w := w1)
    as (w2 & Hloop & Hel2 & Hc2 & Hw2).
  { intros g Hg. apply elem_of_imageFiles in Hg as (f & _ & Hf & <-).
    by apply image_file_not_webp. }
  { intros g _. by rewrite Hel1. }
  rewrite Hel1 in Hel2. fold T' in Hel2.
  set (left := fs_writeFile_partial e TRACKER_FILE (JSON_stringify e (JArray T'))).
  exists (leave_file w2 TRACKER_FILE left).
  assert (Hsame : forall p, p <> TRACKER_FILE ->
            disk (leave_file w2 TRACKER_FILE left) !! p = disk w2 !! p).
  { intros p Hp. destruct left; [|done]. by apply lookup_insert_ne. }
  split; [|split; [|split; [|split; [|split]]]].
  - unfold bind at 1. rewrite Hloop.
    unfold bind at 1. unfold updateOptimizedTracker, bind, JsSet.to_array, Fs.writeFile.
    by rewrite Hfault, Hel2.
  - destruct left as [part|]; [apply lookup_insert_eq|].
    destruct Hw2 as (_ & _ & _ & Hout).
    apply Hout; [apply tracker_not_in_file_writes|apply tracker_not_in_targets].
  - rewrite <- (written_during_wrote _ _ _ _ Hw2).
    unfold written_during. by destruct left.
  - intros f Hf.
    assert (Hin2 : is_Some (disk w2 !! outputPath f)).
    { destruct Hw2 as (_ & Hin & _). apply Hin.
      apply elem_of_newly_optimized in Hf as (Hf & Ht & Hok).
      apply (elem_of_concat_map _ _ f); [done|].
      unfold file_writes. rewrite Ht, Hok. apply elem_of_app. left. by left. }
    destruct left; [by apply is_Some_insert|done].
  - unfold JsSet.elements in *. by destruct left.
  - assert (Hc : console (leave_file w2 TRACKER_FILE left) = console w2)
      by (by destruct left).
    rewrite Hc, Hc2. unfold w1. simpl. by rewrite <- app_assoc.
Qed.

Lemma run_loses_tracker_when_save_fails_witness :
  (exists w',
     runOptimization Faults.no_write Examples.empty_world = (Throw Faults.EACCES, w')
     /\ disk w' !! TRACKER_FILE = None
     /\ written_during Examples.empty_world w'
        = ["img/products/optimized/ring.webp"; "img/products/thumbnail/ring.webp";
           "img/products/optimized/chain.webp"; "img/products/thumbnail/chain.webp"]
     /\ JsSet.elements w' 0 = [JString "ring.jpg"; JString "chain.png"])
  /\ (exists w',
        runOptimization Faults.disk_full Examples.after_two_images
        = (Throw Faults.ENOSPC, w')
        /\ is_Some (disk Examples.after_two_images !! TRACKER_FILE)
        /\ disk w' !! TRACKER_FILE = Some EmptyString).
Proof.
  split.
  - destruct (run_loses_tracker_when_save_fails Faults.no_write Examples.empty_world
                (Examples.entries ["ring.jpg"; "chain.png"]) Faults.EACCES
                eq_refl eq_refl eq_refl)
      as (w' & Hrun & Hdisk & Hwritten & _ & Hel & _).
    + apply (bool_decide_unpack _). vm_compute. exact I.
    + reflexivity.
    + exists w'. split; [exact Hrun|]. split; [exact Hdisk|]. split.
      * etrans; [exact Hwritten|]. vm_compute. reflexivity.
      * etrans; [exact Hel|]. vm_compute. reflexivity.
  - destruct (run_loses_tracker_when_save_fails Faults.disk_full
                Examples.after_two_images
                (Examples.entries ["ring.jpg"; "chain.png"]) Faults.ENOSPC
                eq_refl eq_refl eq_refl)
      as (w' & Hrun & Hdisk & _).
    + apply (bool_decide_unpack _). vm_compute. exact I.
    + reflexivity.
    + exists w'. split; [exact Hrun|]. split; [vm_compute; eauto|exact Hdisk].
Defined.

(** X4.  The script's last statement never throws: when [runOptimization]
    returns, [main] leaves the world as the run left it; when it throws,
    [main] prints the error, once, and returns. *)
Theorem main_always_returns (inspect : JsError -> string) (e : Env) (w : World) :
  exists w',
    main inspect e w = (Ok tt, w')
    /\ (forall w1, runOptimization e w = (Ok tt, w1) -> w' = w1)
    /\ (forall error w1,
          runOptimization e w = (Throw error, w1) ->
          w' = print w1 (console_error_line (inspect error)))
    /\ (forall files, io_ok e files -> w' = snd (runOptimization e w)).
Proof.
  unfold main, try_catch.
  destruct (runOptimization e w) as [[[]|error] w1] eqn:Hrun.
  - exists w1. split; [done|]. split; [by intros ? [= ->]|]. split; [done|done].
  - exists (print w1 (console_error_line (inspect error))).
    split; [done|]. split; [done|]. split; [by intros ? ? [= -> ->]|].
    intros files Hio.
    destruct (runOptimization_run e w files Hio) as (w'' & Hrun' & _). congruence.
Qed.

Lemma main_always_returns_witness :
  exists w',
    main Faults.inspect Faults.no_mkdir Examples.empty_world = (Ok tt, w')
    /\ console w'
       = [console_log_line
            "--- Starting Image Optimization at 2024-01-01T00:00:00.000Z ---";
          console_error_line "Error: EACCES: permission denied"]
    /\ writes w' = [].
Proof.
  destruct (main_always_returns Faults.inspect Faults.no_mkdir Examples.empty_world)
    as (w' & Hmain & _ & Hthrow & _).
  exists w'. split; [exact Hmain|].
  rewrite (Hthrow Faults.EACCES
             (print Examples.empty_world
                (console_log_line
                   "--- Starting Image Optimization at 2024-01-01T00:00:00.000Z ---"))).
  - split; reflexivity.
  - vm_compute. reflexivity.
Defined.

(** ** The loop on any list of files *)

Lemma for_each_file_eval e t files :
  forall c w,
    for_each_file e t files c w
    = (Ok (loop_count e t files c w), loop_effect e t files w).
Proof.
  induction files as [|f rest IH]; intros c w; [done|].
  rewrite for_each_file_cons. cbv zeta. rewrite IH. reflexivity.
Qed.

(** What [optimizeImage] does to the heap and the console, for any file. *)
Lemma optimize_effect_frame e inputPath f t w :
  let w' := optimize_effect e inputPath f t w in
  next_ref w' = next_ref w
  /\ (forall r, r <> t -> heap w' !! r = heap w !! r)
  /\ (JsSet.elements w' t = JsSet.elements w t
      \/ JsSet.elements w' t = JsSet.elements w t ++ [JString f])
  /\ (length (console w) <= length (console w') <= S (length (console w)))%nat.
Proof.
  unfold optimize_effect.
  destruct (tracked _ f) eqn:Ht; [repeat split; auto; lia|].
  destruct (String.eqb _ _); [repeat split; auto; lia|].
  destruct (optimize_attempt e inputPath f) as [bytes|error].
  - split; [done|]. split.
    { intros r Hr. simpl. by rewrite lookup_insert_ne. }
    split.
    { right. by rewrite elements_set_heap, (insert_untracked _ _ Ht). }
    simpl. rewrite length_app. simpl. lia.
  - unfold JsSet.elements.
    destruct (optimize_residue e inputPath f); cbn [leave_file].
    + split; [done|]. split; [done|]. split; [by left|].
      simpl. rewrite length_app. simpl. lia.
    + split; [done|]. split; [done|]. split; [by left|].
      simpl. rewrite length_app. simpl. lia.
Qed.

(** X13.  The loop never throws, whatever files it is given (listed
    twice, already WebP, unreadable): it returns a counter raised by at
    most one per file, appends to the tracker set only names of the files
    it was given, prints one or two lines per file, and changes no other
    object on the heap. *)
Theorem loop_never_throws (e : Env) (trackerSet : nat) (files : list string)
    (processedCount : nat) (w : World) :
  exists count w',
    for_each_file e trackerSet files processedCount w = (Ok count, w')
    /\ (processedCount <= count <= processedCount + length files)%nat
    /\ (exists added,
          JsSet.elements w' trackerSet
          = JsSet.elements w trackerSet ++ map JString added
          /\ forall f, f ∈ added -> f ∈ files)
    /\ next_ref w' = next_ref w
    /\ (forall r, r <> trackerSet -> heap w' !! r = heap w !! r)
    /\ (length (console w) + length files <= length (console w')
        <= length (console w) + 2 * length files)%nat.
Proof.
  rewrite for_each_file_eval. eexists _, _. split; [reflexivity|].
  revert processedCount w. induction files as [|f rest IH]; intros c w.
  - cbn [loop_count loop_effect length]. split; [lia|]. split.
    { exists []. split; [by rewrite app_nil_r|]. intros f Hf. by apply elem_of_nil in Hf. }
    split; [done|]. split; [done|]. lia.
  - cbn [loop_count loop_effect length].
    set (w1 := if tracked (JsSet.elements w trackerSet) f then w
               else optimize_effect e (fullPath f) f trackerSet w).
    set (w2 := thumbnail_effect e (fullPath f) f w1).
    set (c1 := if tracked (JsSet.elements w trackerSet) f then c else S c).
    assert (H1 : next_ref w1 = next_ref w
                 /\ (forall r, r <> trackerSet -> heap w1 !! r = heap w !! r)
                 /\ (JsSet.elements w1 trackerSet = JsSet.elements w trackerSet
                     \/ JsSet.elements w1 trackerSet
                        = JsSet.elements w trackerSet ++ [JString f])
                 /\ (length (console w) <= length (console w1)
                     <= S (length (console w)))%nat).
    { subst w1. destruct (tracked _ f); [repeat split; auto; lia|].
      apply optimize_effect_frame. }
    destruct H1 as (Hn1 & Hh1 & He1 & Hc1).
    destruct (thumbnail_effect_spec e (fullPath f) f w1) as (Hh2 & Hn2 & Hc2 & _).
    fold w2 in Hh2, Hn2, Hc2.
    destruct (IH c1 w2) as (Hcount & (added & Hel & Hadded) & Hn & Hh & Hc).
    split; [subst c1; destruct (tracked _ f); lia|]. split.
    { assert (He2 : JsSet.elements w2 trackerSet = JsSet.elements w1 trackerSet).
      { unfold JsSet.elements. by rewrite Hh2. }
      rewrite Hel, He2. destruct He1 as [-> | ->].
      - exists added. split; [done|]. intros g Hg. right. by apply Hadded.
      - exists (f :: added). split; [by rewrite <- app_assoc|].
        intros g Hg. apply elem_of_cons in Hg as [->|Hg]; [by left|].
        right. by apply Hadded. }
    split; [congruence|]. split.
    { intros r Hr. rewrite (Hh r Hr), Hh2. by apply Hh1. }
    rewrite Hc2, length_app in Hc. simpl in Hc. lia.
Qed.

(** ** Sets without repeated elements *)

Lemma sameValueZero_sym x y : JsSet.sameValueZero x y = JsSet.sameValueZero y x.
Proof.
  destruct x, y; try reflexivity; simpl.
  - by destruct b, b0.
  - apply bool_decide_ext. split; congruence.
  - apply String.eqb_sym.
Qed.

Lemma mem_app v A B : JsSet.mem v (A ++ B) = JsSet.mem v A || JsSet.mem v B.
Proof. apply existsb_app. Qed.

Lemma mem_false v T :
  JsSet.mem v T = false <-> forall x, x ∈ T -> JsSet.sameValueZero v x = false.
Proof.
  unfold JsSet.mem. split.
  - intros H x Hx. destruct (JsSet.sameValueZero v x) eqn:E; [|done].
    assert (existsb (JsSet.sameValueZero v) T = true); [|congruence].
    apply existsb_exists. exists x. split; [by apply list_elem_of_In|done].
  - intros H. destruct (existsb _ T) eqn:E; [|done].
    apply existsb_exists in E as (x & Hx & Hv).
    rewrite (H x) in Hv; [done|by apply list_elem_of_In].
Qed.

Lemma distinct_app A B :
  distinct A = true -> distinct B = true ->
  (forall v, v ∈ B -> JsSet.mem v A = false) ->
  distinct (A ++ B) = true.
Proof.
  intros HA HB Hsep. induction A as [|a A IH]; [done|].
  cbn [app distinct] in *. apply andb_true_iff in HA as [Ha HA].
  apply andb_true_iff. split.
  - rewrite mem_app. apply negb_true_iff in Ha. rewrite Ha. cbn [orb].
    apply negb_true_iff, mem_false. intros b Hb.
    rewrite sameValueZero_sym.
    pose proof (Hsep b Hb) as Hm. rewrite mem_false in Hm. apply Hm. by left.
  - apply IH; [done|]. intros v Hv. pose proof (Hsep v Hv) as Hm.
    rewrite mem_false in Hm |- *. intros x Hx. apply Hm. by right.
Qed.

Lemma distinct_insert T v : distinct T = true -> distinct (JsSet.insert T v) = true.
Proof.
  intros HT. unfold JsSet.insert. destruct (JsSet.mem v T) eqn:Hv; [done|].
  apply distinct_app; [done|done|].
  intros x Hx. apply list_elem_of_singleton in Hx as ->. done.
Qed.

Lemma distinct_fold_insert items :
  forall acc, distinct acc = true -> distinct (fold_left JsSet.insert items acc) = true.
Proof.
  induction items as [|x items IH]; intros acc Hacc; [done|].
  simpl. by apply IH, distinct_insert.
Qed.

Lemma distinct_middle A x B :
  distinct (A ++ x :: B) = true -> JsSet.mem x A = false.
Proof.
  induction A as [|a A IH]; [done|]. cbn [app distinct].
  intros H. apply andb_true_iff in H as [Ha H].
  apply negb_true_iff in Ha. rewrite mem_app in Ha.
  apply orb_false_iff in Ha as [_ Ha]. cbn [JsSet.mem existsb] in Ha.
  apply orb_false_iff in Ha as [Ha _].
  cbn [JsSet.mem existsb]. rewrite sameValueZero_sym, Ha. cbn [orb].
  by apply IH.
Qed.

(** Building a set from elements that are already distinct keeps them
    all, in their order. *)
Lemma fold_insert_distinct items :
  forall acc,
    distinct (acc ++ items) = true ->
    fold_left JsSet.insert items acc = acc ++ items.
Proof.
  induction items as [|x items IH]; intros acc H; [by rewrite app_nil_r|].
  cbn [fold_left]. unfold JsSet.insert at 2.
  rewrite (distinct_middle _ _ _ H).
  rewrite IH; rewrite <- app_assoc; done.
Qed.

Lemma distinct_names l : NoDup l -> distinct (map JString l) = true.
Proof.
  induction 1 as [|x l Hx Hl IH]; [done|].
  cbn [map distinct]. rewrite IH, andb_true_r. apply negb_true_iff.
  destruct (JsSet.mem (JString x) (map JString l)) eqn:E; [|done].
  apply (tracked_names l x) in E. contradiction.
Qed.

Lemma elem_of_names_in T s : s ∈ names_in T <-> tracked T s = true.
Proof.
  unfold names_in, tracked, JsSet.mem. rewrite existsb_exists.
  rewrite list_elem_of_In, in_flat_map. split.
  - intros (v & Hv & Hs). exists v. split; [done|].
    destruct v; try (by destruct Hs). destruct Hs as [->|[]]. apply String.eqb_refl.
  - intros (v & Hv & Hs). exists v. split; [done|].
    destruct v; try discriminate. simpl in Hs. apply String.eqb_eq in Hs as ->. by left.
Qed.

Lemma NoDup_names_in T : distinct T = true -> NoDup (names_in T).
Proof.
  induction T as [|v T IH]; [constructor|].
  cbn [distinct]. intros H. apply andb_true_iff in H as [Hv HT].
  specialize (IH HT). unfold names_in. cbn [flat_map]. fold (names_in T).
  destruct v; try exact IH. cbn [app]. constructor; [|exact IH].
  rewrite elem_of_names_in. apply negb_true_iff in Hv. unfold tracked. by rewrite Hv.
Qed.

Lemma distinct_loaded e w : distinct (loaded_tracker e w) = true.
Proof.
  unfold loaded_tracker. destruct (tracker_read e w); [|done].
  by apply distinct_fold_insert.
Qed.

Lemma NoDup_newly_optimized e T files :
  NoDup files -> NoDup (newly_optimized e T files).
Proof. intros H. unfold newly_optimized, untracked. by do 2 apply NoDup_filter. Qed.

Lemma distinct_after_run e T files :
  distinct T = true -> NoDup files ->
  distinct (T ++ map JString (newly_optimized e T files)) = true.
Proof.
  intros HT Hnd. apply distinct_app; [done| |].
  - by apply distinct_names, NoDup_newly_optimized.
  - intros v Hv. apply list_elem_of_fmap in Hv as (f & -> & Hf).
    by apply elem_of_newly_optimized in Hf as (_ & Hf & _).
Qed.

(** X5.  The tracker set never holds a value twice: whatever the tracker
    file repeats is loaded once, and what a run persists has every name
    at most once. *)
Theorem tracker_has_no_duplicates (e : Env) (w : World) (files : list Dirent) :
  io_ok e files ->
  exists w',
    runOptimization e w = (Ok tt, w')
    /\ distinct (loaded_tracker e w) = true
    /\ distinct (JsSet.elements w' (next_ref w)) = true
    /\ NoDup (names_in (JsSet.elements w' (next_ref w)))
    /\ disk w' !! TRACKER_FILE
       = Some (JSON_stringify e (JArray (JsSet.elements w' (next_ref w)))).
Proof.
  intros Hio.
  destruct (runOptimization_run e w files Hio) as (w' & Hrun & Hel & _ & _ & Hdisk).
  exists w'. rewrite Hel.
  assert (Hd : distinct (loaded_tracker e w
                         ++ map JString (newly_optimized e (loaded_tracker e w)
                                           (imageFiles files))) = true).
  { apply distinct_after_run; [apply distinct_loaded|].
    apply NoDup_imageFiles. by destruct Hio as (_ & _ & _ & _ & ?). }
  split; [done|]. split; [apply distinct_loaded|]. split; [done|].
  split; [by apply NoDup_names_in|done].
Qed.

Lemma tracker_has_no_duplicates_witness :
  exists w',
    runOptimization Examples.two_images Examples.empty_world = (Ok tt, w')
    /\ NoDup (names_in (JsSet.elements w' (next_ref Examples.empty_world))).
Proof.
  destruct (tracker_has_no_duplicates Examples.two_images Examples.empty_world
              (Examples.entries ["ring.jpg"; "chain.png"]))
    as (w' & Hrun & _ & _ & Hnd & _).
  - apply io_ok_sample. vm_compute. reflexivity.
  - exists w'. split; [exact Hrun|exact Hnd].
Defined.

(** X6.  Saving and loading are inverse: after [updateOptimizedTracker]
    has written a set, [getOptimizedTracker] returns a new set with the
    same elements in the same order and prints nothing, when the file can
    be written and read and [JSON.parse] undoes [JSON.stringify] on it. *)
Theorem tracker_save_load_round_trip (e : Env) (trackerSet : nat) (w : World) :
  fs_writeFile_fault e TRACKER_FILE = None ->
  fs_readFile_fault e TRACKER_FILE = None ->
  JSON_parse e (JSON_stringify e (JArray (JsSet.elements w trackerSet)))
  = Ok (JArray (JsSet.elements w trackerSet)) ->
  distinct (JsSet.elements w trackerSet) = true ->
  exists w1 w2,
    updateOptimizedTracker e trackerSet w = (Ok tt, w1)
    /\ getOptimizedTracker e w1 = (Ok (next_ref w1), w2)
    /\ JsSet.elements w2 (next_ref w1) = JsSet.elements w trackerSet
    /\ console w2 = console w
    /\ disk w2 = <[TRACKER_FILE := JSON_stringify e (JArray (JsSet.elements w trackerSet))]>
                   (disk w).
Proof.
  intros Hwrite Hread Hparse Hdistinct.
  eexists _, _. split.
  { unfold updateOptimizedTracker, bind, JsSet.to_array, Fs.writeFile.
    rewrite Hwrite. reflexivity. }
  split; [apply getOptimizedTracker_run|].
  set (w1 := write_file w _ _).
  assert (Hread1 : tracker_read e w1 = Ok (JsSet.elements w trackerSet)).
  { unfold tracker_read. rewrite Hread. unfold w1. cbn [disk write_file].
    rewrite lookup_insert_eq, Hparse. reflexivity. }
  unfold JsSet.elements at 1. cbn [heap console disk].
  rewrite lookup_insert_eq. cbn [default].
  unfold loaded_tracker, load_console. rewrite Hread1.
  split; [|split; [by rewrite app_nil_r|reflexivity]].
  by apply (fold_insert_distinct _ []).
Qed.

Lemma tracker_save_load_round_trip_witness :
  exists w1 w2,
    updateOptimizedTracker Examples.two_images 0 Examples.after_two_images = (Ok tt, w1)
    /\ getOptimizedTracker Examples.two_images w1 = (Ok (next_ref w1), w2)
    /\ JsSet.elements w2 (next_ref w1) = [JString "ring.jpg"; JString "chain.png"].
Proof.
  destruct (tracker_save_load_round_trip Examples.two_images 0 Examples.after_two_images)
    as (w1 & w2 & Hsave & Hload & Hel & _).
  - reflexivity.
  - reflexivity.
  - vm_compute. reflexivity.
  - vm_compute. reflexivity.
  - exists w1, w2. split; [exact Hsave|]. split; [exact Hload|].
    etrans; [exact Hel|]. vm_compute. reflexivity.
Defined.

(** ** The padding and the scaling of the font *)

Lemma Math_round_80_percent size :
  Math_round (inject_Z size * (8 # 10)) = ((8 * size + 5) / 10)%Z.
Proof.
  unfold Math_round, Qfloor, Qplus, Qmult, inject_Z. cbn [Qnum Qden].
  change (Z.pos (1 * 10 * 2)) with (2 * 10)%Z.
  replace (size * 8 * 2 + 1 * Z.pos (1 * 10))%Z with (2 * (8 * size + 5))%Z by lia.
  apply Z.div_mul_cancel_l; lia.
Qed.

Lemma padding_floor width : padding width = ((8 * fontSize width + 5) / 10)%Z.
Proof. unfold padding. apply Math_round_80_percent. Qed.

(** X7.  The padding is round(0.8 * font size): at least 14, at least 4
    below the font size, and not decreasing in the width.  The label's
    baseline [y] is the height less the padding, so it lies above the
    bottom edge, and above the top edge of an image less than 14 high. *)
Theorem padding_bounds (width width' height : Z) :
  (width <= width')%Z ->
  padding width = ((8 * fontSize width + 5) / 10)%Z
  /\ (14 <= padding width <= fontSize width - 4)%Z
  /\ (padding width <= padding width')%Z
  /\ (height - padding width < height)%Z
  /\ ((height < 14)%Z -> (height - padding width < 0)%Z)
  /\ exists before after,
       createWatermarkSVG width height
       = before +:+ "y=" +:+ dq +:+ of_Z (height - padding width) +:+ dq +:+ after.
Proof.
  intros Hle.
  assert (Hfs : (18 <= fontSize width)%Z).
  { rewrite fontSize_floor. apply Z.le_max_r. }
  assert (Hmono : (fontSize width <= fontSize width')%Z).
  { rewrite !fontSize_floor. apply Z.max_le_compat_r. apply Z.div_le_mono; lia. }
  assert (Hlow : (14 <= padding width)%Z).
  { rewrite padding_floor. apply Z.div_le_lower_bound; lia. }
  assert (Hup : (padding width <= fontSize width - 4)%Z).
  { rewrite padding_floor.
    assert ((8 * fontSize width + 5) / 10 < fontSize width - 3)%Z; [|lia].
    apply Z.div_lt_upper_bound; lia. }
  split; [apply padding_floor|]. split; [lia|]. split.
  { rewrite !padding_floor. apply Z.div_le_mono; lia. }
  split; [lia|]. split; [lia|].
  unfold createWatermarkSVG. cbv zeta.
  eexists (nl +:+ "    <svg width=" +:+ dq +:+ of_Z width +:+ dq
           +:+ " height=" +:+ dq +:+ of_Z height +:+ dq +:+ ">" +:+ nl
           +:+ "      <text" +:+ nl
           +:+ "        x=" +:+ dq +:+ "50%" +:+ dq +:+ nl
           +:+ "        "), _.
  rewrite !append_assoc. reflexivity.
Qed.

Lemma padding_bounds_witness :
  (400 <= 4000)%Z
  /\ padding 400 = 14%Z /\ padding 4000 = 96%Z
  /\ (padding 400 <= padding 4000)%Z.
Proof.
  assert (H : (400 <= 4000)%Z) by lia.
  destruct (padding_bounds 400 4000 300 H) as (_ & _ & Hmono & _).
  split; [exact H|]. split; [reflexivity|]. split; [reflexivity|exact Hmono].
Defined.

(** X8.  The font size is the minimum 18 exactly for widths up to 616.
    From 617 on it is within half a pixel of 3% of the width, and 100
    more pixels of width are 3 more of font size. *)
Theorem fontSize_threshold (width : Z) :
  (fontSize width = 18%Z <-> (width <= 616)%Z)
  /\ ((617 <= width)%Z ->
      fontSize (width + 100) = (fontSize width + 3)%Z
      /\ (3 * width - 50 < 100 * fontSize width <= 3 * width + 50)%Z).
Proof.
  assert (Hdiv : forall w, (617 <= w)%Z -> fontSize w = ((3 * w + 50) / 100)%Z).
  { intros w Hw. rewrite fontSize_floor. apply Z.max_l.
    apply Z.div_le_lower_bound; lia. }
  split.
  - rewrite fontSize_floor. split.
    + intros H. destruct (Z_le_gt_dec width 616) as [|Hgt]; [done|].
      assert (19 <= (3 * width + 50) / 100)%Z by (apply Z.div_le_lower_bound; lia).
      lia.
    + intros H. apply Z.max_r.
      assert ((3 * width + 50) / 100 < 19)%Z by (apply Z.div_lt_upper_bound; lia).
      lia.
  - intros Hw. rewrite !Hdiv by lia. split.
    + replace (3 * (width + 100) + 50)%Z with ((3 * width + 50) + 3 * 100)%Z by lia.
      apply Z.div_add. lia.
    + pose proof (Z.mul_div_le (3 * width + 50) 100 ltac:(lia)).
      pose proof (Z.mul_succ_div_gt (3 * width + 50) 100 ltac:(lia)).
      lia.
Qed.

Lemma fontSize_threshold_witness :
  (617 <= 1000)%Z /\ fontSize 1000 = 30%Z /\ fontSize (1000 + 100) = (fontSize 1000 + 3)%Z.
Proof.
  assert (H : (617 <= 1000)%Z) by lia.
  destruct (fontSize_threshold 1000) as (_ & Hscale).
  destruct (Hscale H) as (Hstep & _).
  split; [exact H|]. split; [reflexivity|exact Hstep].
Defined.

(** ** What a run writes, and where *)

Lemma prefix_split a s : String.prefix a s = true -> exists r, s = a +:+ r.
Proof.
  revert s. induction a as [|c a IH]; intros s H; [by exists s|].
  destruct s as [|c' s]; [discriminate|]. cbn [String.prefix] in H.
  destruct (ascii_dec c c') as [<-|]; [|discriminate].
  destruct (IH s H) as [r ->]. by exists r.
Qed.

Lemma fullPath_eq n : fullPath n = "img/products/" +:+ n.
Proof. reflexivity. Qed.

(** A source file's path lies in neither output directory. *)
Lemma fullPath_not_in_outputs n :
  single_component n = true ->
  in_dir OPTIMIZED_IMG_DIR (fullPath n) = false
  /\ in_dir THUMBNAIL_DIR (fullPath n) = false.
Proof.
  intros Hn. split.
  - destruct (in_dir OPTIMIZED_IMG_DIR (fullPath n)) eqn:E; [|done].
    change (String.prefix "optimized/" n = true) in E.
    apply prefix_split in E as [r ->]. discriminate Hn.
  - destruct (in_dir THUMBNAIL_DIR (fullPath n)) eqn:E; [|done].
    change (String.prefix "thumbnail/" n = true) in E.
    apply prefix_split in E as [r ->]. discriminate Hn.
Qed.

(** X10.  A run writes only into the two output directories and to the
    tracker file, and a write of it that fails leaves its file there too:
    no file elsewhere is changed.  So it never writes a file of the
    source directory other than the tracker: every source image is on
    disk afterwards as it was before. *)
Theorem run_never_writes_a_source (e : Env) (w : World) (files : list Dirent) :
  io_ok e files ->
  exists w',
    runOptimization e w = (Ok tt, w')
    /\ (forall p, p ∈ written_during w w' ->
          in_dir OPTIMIZED_IMG_DIR p = true
          \/ in_dir THUMBNAIL_DIR p = true
          \/ p = TRACKER_FILE)
    /\ (forall p, disk w' !! p <> disk w !! p ->
          in_dir OPTIMIZED_IMG_DIR p = true
          \/ in_dir THUMBNAIL_DIR p = true
          \/ p = TRACKER_FILE)
    /\ (forall n,
          single_component n = true ->
          n <> "optimized_images.json" ->
          (fullPath n ∉ written_during w w')
          /\ disk w' !! fullPath n = disk w !! fullPath n).
Proof.
  intros Hio.
  destruct (runOptimization_run e w files Hio) as (w' & Hrun & _ & _ & Hw & _).
  exists w'. split; [done|].
  assert (Hdirs : forall p, p ∈ written_during w w' ->
            in_dir OPTIMIZED_IMG_DIR p = true
            \/ in_dir THUMBNAIL_DIR p = true \/ p = TRACKER_FILE).
  { intros p Hp. rewrite (written_during_wrote _ _ _ _ Hw) in Hp.
    apply elem_of_app in Hp as [Hp|Hp].
    - apply elem_of_concat_map_inv in Hp as (f & _ & Hp).
      apply elem_of_file_writes in Hp as [(-> & _)|(-> & _)].
      + left. apply outputPath_in_optimized.
      + right. left. apply thumbPath_in_thumbnail.
    - right. right. by apply list_elem_of_singleton in Hp. }
  split; [exact Hdirs|].
  pose proof (written_during_wrote _ _ _ _ Hw) as Heq.
  destruct Hw as (_ & _ & _ & Hout).
  split.
  { intros p Hchanged.
    destruct (decide (p ∈ written_during w w')) as [Hin|Hnew]; [by apply Hdirs|].
    destruct (decide (p ∈ concat (map (file_targets (loaded_tracker e w))
                                      (imageFiles files)))) as [Hin|Htarget].
    - apply targets_in_outputs in Hin as [H|H]; auto.
    - exfalso. apply Hchanged. apply Hout; [by rewrite <- Heq|done]. }
  intros n Hn Hname.
  destruct (fullPath_not_in_outputs n Hn) as [Ho Ht].
  assert (Hnot : fullPath n ∉ written_during w w').
  { intros Hin. destruct (Hdirs _ Hin) as [H|[H|H]]; [congruence|congruence|].
    rewrite fullPath_eq in H.
    change TRACKER_FILE with ("img/products/" +:+ "optimized_images.json") in H.
    by apply String.app_inj in H. }
  split; [exact Hnot|].
  apply Hout; [by rewrite <- Heq|].
  intros Hin. apply targets_in_outputs in Hin as [H|H]; congruence.
Qed.

Lemma run_never_writes_a_source_witness :
  exists w',
    runOptimization Examples.two_images Examples.empty_world = (Ok tt, w')
    /\ disk w' !! "img/products/ring.jpg" = None.
Proof.
  destruct (run_never_writes_a_source Examples.two_images Examples.empty_world
              (Examples.entries ["ring.jpg"; "chain.png"]))
    as (w' & Hrun & _ & _ & Hsrc).
  - apply io_ok_sample. vm_compute. reflexivity.
  - exists w'. split; [exact Hrun|].
    destruct (Hsrc "ring.jpg") as (_ & Hdisk); [reflexivity|discriminate|].
    exact Hdisk.
Defined.



Lemma filter_same {A} (P Q : A -> Prop) `{forall x, Decision (P x)}
    `{forall x, Decision (Q x)} (l : list A) :
  (forall x, x ∈ l -> P x <-> Q x) -> filter P l = filter Q l.
Proof.
  induction l as [|x l IH]; intros Hall; [done|].
  rewrite !filter_cons.
  rewrite IH by (intros y Hy; apply Hall; by right).
  destruct (decide (P x)) as [HP|HP], (decide (Q x)) as [HQ|HQ]; try done.
  - exfalso. apply HQ, (Hall x); [by left|done].
  - exfalso. apply HP, (Hall x); [by left|done].
Qed.

(** X14.  A file whose conversion failed is tried again by the next run,
    and only such a file is: a run that reads back the tracker of the
    run before hands to [optimizeImage] exactly the candidates that run
    attempted and could not convert, and writes the optimized output of
    those it can convert now. *)
Theorem failed_images_are_retried (e1 e2 : Env) (w : World) (files : list Dirent) :
  io_ok e1 files ->
  io_ok e2 files ->
  fs_readFile_fault e2 TRACKER_FILE = None ->
  (let w1 := snd (runOptimization e1 w) in
   JSON_parse e2 (JSON_stringify e1 (JArray (JsSet.elements w1 (next_ref w))))
   = Ok (JArray (JsSet.elements w1 (next_ref w)))) ->
  let failed :=
    filter (fun f => succeeds (optimize_attempt e1 (fullPath f) f) = false)
           (untracked (loaded_tracker e1 w) (imageFiles files)) in
  exists w1 w2,
    runOptimization e1 w = (Ok tt, w1)
    /\ runOptimization e2 w1 = (Ok tt, w2)
    /\ untracked (loaded_tracker e2 w1) (imageFiles files) = failed
    /\ outputs_in OPTIMIZED_IMG_DIR w1 w2
       = map outputPath
           (filter (fun f => succeeds (optimize_attempt e2 (fullPath f) f) = true)
                   failed).
Proof.
  intros Hio1 Hio2 Hread Hparse failed.
  destruct (runOptimization_run e1 w files Hio1) as (w1 & Hrun1 & Hel1 & _ & _ & Hdisk1).
  rewrite Hrun1 in Hparse. cbn [snd] in Hparse. rewrite Hel1 in Hparse.
  set (T := loaded_tracker e1 w) in *.
  set (T1 := T ++ map JString (newly_optimized e1 T (imageFiles files))) in *.
  destruct (runOptimization_run e2 w1 files Hio2) as (w2 & Hrun2 & _ & _ & Hw2 & _).
  assert (Hload : loaded_tracker e2 w1 = fold_left JsSet.insert T1 []).
  { unfold loaded_tracker, tracker_read. by rewrite Hread, Hdisk1, Hparse. }
  assert (Hsame : forall f, tracked (loaded_tracker e2 w1) f = tracked T1 f).
  { intros f. rewrite Hload. unfold tracked. by rewrite mem_fold_insert. }
  assert (Hretry : untracked (loaded_tracker e2 w1) (imageFiles files) = failed).
  { unfold failed, untracked. rewrite list_filter_filter.
    apply filter_same. intros f Hf. rewrite Hsame. unfold T1.
    destruct (tracked T f) eqn:Ht.
    - rewrite tracked_app, Ht. cbn [orb]. split; [done|]. by intros [_ ?].
    - rewrite (tracked_after_run e1 T _ f Hf Ht). tauto. }
  exists w1, w2. split; [done|]. split; [done|]. split; [exact Hretry|].
  destruct (outputs_of_run _ _ _ _ _ Hw2) as [Hopt _].
  rewrite Hopt. unfold newly_optimized. by rewrite Hretry.
Qed.

Lemma failed_images_are_retried_witness :
  exists w1 w2,
    runOptimization Examples.one_bad Examples.empty_world = (Ok tt, w1)
    /\ runOptimization Faults.repaired w1 = (Ok tt, w2)
    /\ untracked (loaded_tracker Faults.repaired w1)
         (imageFiles (Examples.entries ["ring.jpg"; "broken.png"]))
       = ["broken.png"]
    /\ outputs_in OPTIMIZED_IMG_DIR w1 w2 = ["img/products/optimized/broken.webp"].
Proof.
  destruct (failed_images_are_retried Examples.one_bad Faults.repaired
              Examples.empty_world (Examples.entries ["ring.jpg"; "broken.png"]))
    as (w1 & w2 & Hrun1 & Hrun2 & Hretry & Hout).
  - apply io_ok_sample. vm_compute. reflexivity.
  - apply io_ok_sample. vm_compute. reflexivity.
  - reflexivity.
  - vm_compute. reflexivity.
  - exists w1, w2. split; [exact Hrun1|]. split; [exact Hrun2|]. split.
    + etrans; [exact Hretry|]. vm_compute. reflexivity.
    + etrans; [exact Hout|]. vm_compute. reflexivity.
Defined.

(** ** The scan of a name of one component *)

Lemma scan_char_inv top c i st :
  (0 <= i <= top)%Z -> scan_inv top i st ->
  let st' := Path.scan_char c i st in
  Path.end_ st' = Path.end_ st
  /\ Path.startPart st' = Path.startPart st
  /\ scan_inv top (i - 1) st'.
Proof.
  intros Hi (Hend & Hdot). unfold Path.scan_char.
  destruct (Z.eqb_spec (Path.end_ st) (-1)); [done|].
  destruct (Ascii.eqb c Path.CHAR_DOT).
  - destruct (Z.eqb_spec (Path.startDot st) (-1)) as [Hd|Hd].
    + destruct Hdot as [[_ Hp]|[? _]]; [|lia].
      split; [done|]. split; [done|]. split; [done|]. right. simpl. split; [lia|].
      intros Hne. contradiction.
    + destruct Hdot as [[? _]|[Hr Hp]]; [done|].
      destruct (Z.eqb_spec (Path.preDotState st) 1); cbn [negb].
      * split; [done|]. split; [done|]. split; [done|]. right. split; [lia|done].
      * split; [done|]. split; [done|]. split; [done|]. right. simpl.
        split; [lia|]. intros _. lia.
  - destruct (Z.eqb_spec (Path.startDot st) (-1)) as [Hd|Hd]; cbn [negb].
    + destruct Hdot as [[_ Hp]|[? _]]; [|lia].
      split; [done|]. split; [done|]. split; [done|]. by left.
    + destruct Hdot as [[? _]|[Hr Hp]]; [done|].
      split; [done|]. split; [done|]. split; [done|]. right. simpl.
      split; [lia|]. intros _. lia.
Qed.

Lemma scan_component top rest :
  Forall (fun c => Ascii.eqb c Path.CHAR_FORWARD_SLASH = false) rest ->
  forall i st,
    i = (Z.of_nat (length rest) - 1)%Z -> (i <= top)%Z -> scan_inv top i st ->
    let st' := Path.scan rest i st in
    Path.end_ st' = Path.end_ st
    /\ Path.startPart st' = Path.startPart st
    /\ scan_inv top (-1) st'.
Proof.
  induction 1 as [|c rest Hc Hrest IH]; intros i st Hi Htop Hinv.
  - cbn [length] in Hi. subst i. done.
  - cbn [Path.scan]. rewrite Hc. cbn [length] in Hi.
    destruct (scan_char_inv top c i st) as (He & Hs & Hinv'); [lia|done|].
    destruct (IH (i - 1)%Z (Path.scan_char c i st)) as (He' & Hs' & Hinv'');
      [lia|lia|done|].
    split; [congruence|]. split; [congruence|done].
Qed.

Lemma single_component_chars n :
  single_component n = true ->
  Forall (fun c => Ascii.eqb c Path.CHAR_FORWARD_SLASH = false)
         (rev (list_ascii_of_string n)).
Proof.
  unfold single_component. rewrite forallb_forall. intros H.
  apply Forall_forall. intros c Hc. apply list_elem_of_In, in_rev in Hc.
  apply negb_true_iff. by apply H.
Qed.

Lemma length_list_ascii s : length (list_ascii_of_string s) = String.length s.
Proof. induction s as [|c s IH]; simpl; [done|by rewrite IH]. Qed.

(** The scan of a non-empty name of one component. *)
Lemma scan_path_component n :
  single_component n = true -> n <> "" ->
  let st := Path.scan_path n in
  Path.end_ st = len n
  /\ Path.startPart st = 0%Z
  /\ ((Path.startDot st = (-1)%Z /\ Path.preDotState st = 0%Z)
      \/ ((0 <= Path.startDot st < len n)%Z
          /\ (Path.preDotState st <> 0%Z -> (1 <= Path.startDot st)%Z))).
Proof.
  intros Hn Hne. unfold Path.scan_path.
  pose proof (single_component_chars n Hn) as Hchars.
  pose proof (length_list_ascii n) as Hlen.
  rewrite <- length_rev in Hlen.
  destruct (rev (list_ascii_of_string n)) as [|c rest] eqn:Hrev.
  { destruct n; [done|]. simpl in Hlen. lia. }
  apply Forall_cons in Hchars as [Hc Hrest].
  cbn [Path.scan]. rewrite Hc. cbn [length] in Hlen.
  assert (Hl : len n = (Z.of_nat (length rest) + 1)%Z) by (unfold len; lia).
  set (st1 := Path.scan_char c (len n - 1) Path.scan_init).
  assert (H1 : Path.end_ st1 = len n /\ Path.startPart st1 = 0%Z
               /\ scan_inv (len n - 1) (len n - 1 - 1) st1).
  { subst st1. unfold Path.scan_char. cbn.
    destruct (Ascii.eqb c Path.CHAR_DOT); cbn.
    - split; [lia|]. split; [done|]. split; [cbn; lia|]. right. cbn. split; [lia|done].
    - split; [lia|]. split; [done|]. split; [cbn; lia|]. by left. }
  destruct H1 as (He1 & Hs1 & Hinv1).
  destruct (scan_component (len n - 1) rest Hrest (len n - 1 - 1)%Z st1)
    as (He & Hs & (_ & Hinv)); [lia|lia|done|].
  split; [congruence|]. split; [congruence|].
  destruct Hinv as [?|[? ?]]; [by left|right]. split; [lia|done].
Qed.

(** ** Slices *)

Lemma slice_substring s a b :
  (0 <= a <= b)%Z -> (b <= len s)%Z ->
  slice s a b = substring (Z.to_nat a) (Z.to_nat (b - a)) s.
Proof.
  intros Ha Hb. unfold slice, resolve_index.
  assert (E1 : (a <? 0)%Z = false) by (apply Z.ltb_ge; lia).
  assert (E2 : (b <? 0)%Z = false) by (apply Z.ltb_ge; lia).
  rewrite E1, E2. f_equal; lia.
Qed.

Lemma substring_split s d :
  (d <= String.length s)%nat ->
  substring 0 d s +:+ substring d (String.length s - d) s = s.
Proof.
  revert d. induction s as [|c s IH]; intros d Hd.
  - destruct d; [done|]. simpl in Hd. lia.
  - destruct d as [|d].
    + cbn [substring]. change ("" +:+ ?x) with x.
      cbn [String.length Nat.sub]. f_equal. apply substring_all.
    + cbn [String.length] in *. cbn [substring Nat.sub].
      change (String c ?x +:+ ?y) with (String c (x +:+ y)).
      f_equal. apply IH. lia.
Qed.

Lemma length_substring_0 s d :
  (d <= String.length s)%nat -> String.length (substring 0 d s) = d.
Proof.
  revert d. induction s as [|c s IH]; intros d Hd.
  - destruct d; [done|]. simpl in Hd. lia.
  - destruct d as [|d]; [done|]. cbn [String.length] in *. cbn [substring String.length].
    f_equal. apply IH. lia.
Qed.

(** A name of one component is its [path.parse] name followed by its
    [path.extname]; the name part is not empty when there is an
    extension. *)
Lemma parse_name_extname n :
  single_component n = true ->
  Path.parse_name n +:+ Path.extname n = n
  /\ (Path.extname n <> "" -> Path.parse_name n <> "").
Proof.
  intros Hn. destruct n as [|c0 n0] eqn:Hname; [done|]. rewrite <- Hname in *.
  assert (Hne : n <> "") by (by rewrite Hname).
  destruct (scan_path_component n Hn Hne) as (Hend & Hpart & Hdot).
  assert (Hc0 : Ascii.eqb c0 Path.CHAR_FORWARD_SLASH = false).
  { unfold single_component in Hn. rewrite Hname in Hn. cbn in Hn.
    apply andb_true_iff in Hn as [Hn _]. by apply negb_true_iff in Hn. }
  assert (Hparse : Path.parse_name n
                   = if Path.no_extension (Path.scan_path n) then slice n 0 (len n)
                     else slice n 0 (Path.startDot (Path.scan_path n))).
  { rewrite Hname at 1. unfold Path.parse_name. rewrite Hc0. cbv zeta.
    change (drop 0 ?l) with l. rewrite <- Hname. fold (Path.scan_path n).
    rewrite Hend, Hpart.
    assert (E : (len n =? -1)%Z = false) by (apply Z.eqb_neq; unfold len; lia).
    rewrite E. reflexivity. }
  assert (Hext : Path.extname n
                 = if Path.no_extension (Path.scan_path n) then ""
                   else slice n (Path.startDot (Path.scan_path n)) (len n)).
  { unfold Path.extname. rewrite Hend.
    assert (E : (len n =? -1)%Z = false) by (apply Z.eqb_neq; unfold len; lia).
    rewrite E, orb_false_r. reflexivity. }
  rewrite Hparse, Hext.
  assert (Hlen0 : (0 <= len n)%Z) by (unfold len; lia).
  destruct (Path.no_extension (Path.scan_path n)) eqn:Hno.
  - split; [|done]. rewrite slice_substring by lia.
    replace (Z.to_nat (len n - 0)) with (String.length n) by (unfold len; lia).
    change (Z.to_nat 0) with 0%nat. rewrite substring_all.
    clear. induction n as [|c n IH]; [done|].
    change (String c (n +:+ "") = String c n). by rewrite IH.
  - unfold Path.no_extension in Hno.
    apply orb_false_iff in Hno as [Hno _]. apply orb_false_iff in Hno as [Hd Hp].
    apply Z.eqb_neq in Hd, Hp.
    destruct Hdot as [[? _]|[Hrange Hpos]]; [done|]. specialize (Hpos Hp).
    set (d := Path.startDot (Path.scan_path n)) in *.
    rewrite !slice_substring by lia.
    change (Z.to_nat 0) with 0%nat.
    replace (Z.to_nat (d - 0)) with (Z.to_nat d) by lia.
    replace (Z.to_nat (len n - d)) with (String.length n - Z.to_nat d)%nat
      by (unfold len; lia).
    split.
    + apply substring_split. unfold len in Hrange. lia.
    + intros _ Hempty. apply (f_equal String.length) in Hempty.
      rewrite length_substring_0 in Hempty by (unfold len in Hrange; lia).
      simpl in Hempty. lia.
Qed.

Lemma image_file_has_extension f :
  is_image_file f = true -> Path.extname (name f) <> "".
Proof.
  intros H Hext. unfold is_image_file in H. rewrite Hext in H.
  by rewrite andb_false_r in H.
Qed.

(** X9.  The outputs of a candidate are named after it with the
    extension replaced: the name is a non-empty stem followed by its
    extension, and the optimized output and the thumbnail are the stem
    with ".webp" in their directories.  So two candidates are written to
    the same output exactly when their names differ in the extension
    only. *)
Theorem output_name_replaces_extension (f : Dirent) :
  single_component (name f) = true ->
  is_image_file f = true ->
  let stem := Path.parse_name (name f) in
  let ext := Path.extname (name f) in
  name f = stem +:+ ext
  /\ stem <> ""
  /\ toLowerCase (slice_from ext 1) ∈ ["jpg"; "jpeg"; "png"; "gif"]
  /\ outputPath (name f) = "img/products/optimized/" +:+ stem +:+ ".webp"
  /\ thumbPath (name f) = "img/products/thumbnail/" +:+ stem +:+ ".webp"
  /\ forall g,
       single_component (name g) = true ->
       is_image_file g = true ->
       (outputPath (name f) = outputPath (name g)
        <-> name g = stem +:+ Path.extname (name g))
       /\ (thumbPath (name f) = thumbPath (name g)
           <-> name g = stem +:+ Path.extname (name g)).
Proof.
  intros Hn Hf stem ext.
  destruct (parse_name_extname (name f) Hn) as [Hsplit Hstem].
  split; [done|]. split; [by apply Hstem, image_file_has_extension|].
  split.
  { apply includes_elem_of. unfold is_image_file in Hf.
    by apply andb_true_iff in Hf as [_ Hf]. }
  split; [reflexivity|]. split; [reflexivity|].
  intros g Hg Hgi.
  destruct (parse_name_extname (name g) Hg) as [Hsplit' _].
  assert (Hiff : Path.parse_name (name f) = Path.parse_name (name g)
                 <-> name g = stem +:+ Path.extname (name g)).
  { split.
    - intros Heq. unfold stem. by rewrite Heq.
    - intros Heq. rewrite <- Hsplit' in Heq at 1. by apply append_inj_r in Heq. }
  split.
  - rewrite <- Hiff. split; [apply outputPath_inj|].
    intros Heq. unfold outputPath. by rewrite Heq.
  - rewrite <- Hiff. split; [apply thumbPath_inj|].
    intros Heq. unfold thumbPath. by rewrite Heq.
Qed.

Lemma output_name_replaces_extension_witness :
  name (mkDirent "gold.ring.JPG" true) = "gold.ring" +:+ ".JPG"
  /\ outputPath "gold.ring.JPG" = "img/products/optimized/gold.ring.webp"
  /\ (outputPath "gold.ring.JPG" = outputPath "gold.ring.png"
      <-> "gold.ring.png" = "gold.ring" +:+ ".png").
Proof.
  destruct (output_name_replaces_extension (mkDirent "gold.ring.JPG" true))
    as (Hsplit & _ & _ & Hout & _ & Hsame); [reflexivity|reflexivity|].
  split; [exact Hsplit|]. split; [exact Hout|].
  destruct (Hsame (mkDirent "gold.ring.png" true)) as [Ho _]; [reflexivity|reflexivity|].
  exact Ho.
Defined.

(** ** The files after a run, with their bytes *)

Lemma store_app d A B : store d (A ++ B) = store (store d A) B.
Proof. apply fold_left_app. Qed.

Lemma last_write_app p A B :
  last_write p (A ++ B)
  = match last_write p B with
    | Some v => Some v
    | None => last_write p A
    end.
Proof.
  induction A as [|x A IH]; cbn [app last_write].
  - by destruct (last_write p B).
  - rewrite IH. by destruct (last_write p B).
Qed.

Lemma lookup_store p l :
  forall d,
    store d l !! p
    = match last_write p l with
      | Some v => Some v
      | None => d !! p
      end.
Proof.
  induction l as [|x l IH]; intros d; [done|].
  change (store d (x :: l)) with (store (<[fst x := snd x]> d) l).
  rewrite IH. cbn [last_write]. destruct (last_write p l); [done|].
  destruct (String.eqb_spec (fst x) p) as [<-|Hne].
  - apply lookup_insert_eq.
  - by apply lookup_insert_ne.
Qed.

Lemma last_write_elem p l v : last_write p l = Some v -> (p, v) ∈ l.
Proof.
  induction l as [|x l IH]; [done|]. cbn [last_write].
  destruct (last_write p l) as [v'|].
  - intros [= ->]. right. by apply IH.
  - destruct (String.eqb_spec (fst x) p) as [<-|]; [|done].
    intros [= <-]. destruct x. by left.
Qed.

Lemma last_write_absent p l :
  (forall v, (p, v) ∉ l) -> last_write p l = None.
Proof.
  intros H. destruct (last_write p l) as [v|] eqn:E; [|done].
  apply last_write_elem in E. by apply H in E.
Qed.

(** What an attempt puts at a path, it puts at that path. *)
Lemma elem_of_attempt_output path attempt residue p v :
  (p, v) ∈ attempt_output path attempt residue ->
  p = path
  /\ (attempt = Ok v \/ (succeeds attempt = false /\ residue = Some v)).
Proof.
  unfold attempt_output. destruct attempt as [bytes|error].
  - intros H. apply list_elem_of_singleton in H. injection H as -> ->.
    split; [done|by left].
  - destruct residue as [part|]; intros H; [|by apply elem_of_nil in H].
    apply list_elem_of_singleton in H. injection H as -> ->.
    split; [done|by right].
Qed.

Lemma last_write_other p path attempt residue :
  p <> path -> last_write p (attempt_output path attempt residue) = None.
Proof.
  intros Hp. apply last_write_absent. intros v Hv.
  by apply elem_of_attempt_output in Hv as [? _].
Qed.

Lemma outputPath_ne_thumbPath f g : outputPath f <> thumbPath g.
Proof.
  intros H. pose proof (outputPath_in_thumbnail f) as Hd.
  rewrite H in Hd. by rewrite thumbPath_in_thumbnail in Hd.
Qed.

(** The optimized output and the thumbnail of one file. *)
Lemma elem_of_file_outputs e T f p v :
  (p, v) ∈ file_outputs e T f ->
  (p = outputPath f /\ tracked T f = false
   /\ (optimize_attempt e (fullPath f) f = Ok v
       \/ (succeeds (optimize_attempt e (fullPath f) f) = false
           /\ optimize_residue e (fullPath f) f = Some v)))
  \/ (p = thumbPath f
      /\ (thumbnail_attempt e (fullPath f) f = Ok v
          \/ (succeeds (thumbnail_attempt e (fullPath f) f) = false
              /\ thumbnail_residue e (fullPath f) f = Some v))).
Proof.
  unfold file_outputs. intros H. apply elem_of_app in H as [H|H].
  - left. destruct (tracked T f); [by apply elem_of_nil in H|].
    by apply elem_of_attempt_output in H as [-> H].
  - right. by apply elem_of_attempt_output in H as [-> H].
Qed.

(** The files after the loop: those before it, with the outputs of each
    file written in turn. *)
Lemma loop_effect_disk e t T files :
  NoDup files ->
  (forall g, g ∈ files -> String.eqb (toLowerCase (Path.extname g)) ".webp" = false) ->
  forall w,
    (forall g, g ∈ files -> tracked (JsSet.elements w t) g = tracked T g) ->
    disk (loop_effect e t files w)
    = store (disk w) (concat (map (file_outputs e T) files)).
Proof.
  intros Hnd. induction Hnd as [|f rest Hf Hnd IH]; intros Hext w Hagree; [done|].
  cbn [loop_effect map concat]. rewrite store_app.
  assert (Hextf := Hext f ltac:(left)).
  assert (Htf := Hagree f ltac:(left)).
  set (w1 := if tracked (JsSet.elements w t) f then w
             else optimize_effect e (fullPath f) f t w).
  set (w2 := thumbnail_effect e (fullPath f) f w1).
  destruct (thumbnail_effect_spec e (fullPath f) f w1) as (Hh2 & _).
  fold w2 in Hh2.
  assert (Hd2 : disk w2 = store (disk w) (file_outputs e T f)).
  { unfold w2, thumbnail_effect, file_outputs. rewrite store_app.
    assert (Hd1 : disk w1
                  = store (disk w)
                      (if tracked T f then []
                       else attempt_output (outputPath f)
                              (optimize_attempt e (fullPath f) f)
                              (optimize_residue e (fullPath f) f))).
    { unfold w1. rewrite Htf. destruct (tracked T f) eqn:HT; [done|].
      unfold optimize_effect. rewrite Htf, Hextf.
      destruct (optimize_attempt e (fullPath f) f); [done|].
      by destruct (optimize_residue e (fullPath f) f). }
    rewrite <- Hd1.
    destruct (thumbnail_attempt e (fullPath f) f); [done|].
    by destruct (thumbnail_residue e (fullPath f) f). }
  rewrite <- Hd2. apply IH.
  - intros g Hg. apply Hext. by right.
  - intros g Hg. rewrite <- (Hagree g ltac:(by right)).
    assert (He2 : JsSet.elements w2 t = JsSet.elements w1 t).
    { unfold JsSet.elements. by rewrite Hh2. }
    rewrite He2. unfold w1. destruct (tracked (JsSet.elements w t) f) eqn:HT; [done|].
    destruct (optimize_effect_untracked e (fullPath f) f t w HT Hextf) as (He & _).
    rewrite He.
    destruct (succeeds (optimize_attempt e (fullPath f) f)); [|by rewrite app_nil_r].
    rewrite tracked_snoc.
    destruct (String.eqb_spec g f) as [->|]; [contradiction|].
    by rewrite orb_false_r.
Qed.

(** The files after a run. *)
Lemma runOptimization_disk e w files :
  io_ok e files ->
  let T := loaded_tracker e w in
  let T' := T ++ map JString (newly_optimized e T (imageFiles files)) in
  exists w',
    runOptimization e w = (Ok tt, w')
    /\ disk w'
       = <[TRACKER_FILE := JSON_stringify e (JArray T')]>
           (store (disk w) (concat (map (file_outputs e T) (imageFiles files)))).
Proof.
  intros Hio T T'.
  destruct (runOptimization_run e w files Hio) as (w' & Hrun & _).
  exists w'. split; [done|].
  destruct Hio as (Hmk1 & Hmk2 & Hdir & Hwr & Hnd).
  rewrite (runOptimization_loaded e w Hmk1 Hmk2 files Hdir) in Hrun.
  set (w1 := mkWorld _ _ _ _ _) in Hrun.
  assert (Hel1 : JsSet.elements w1 (next_ref w) = T).
  { unfold JsSet.elements, w1. simpl. by rewrite lookup_insert_eq. }
  assert (Hext : forall g, g ∈ imageFiles files ->
                   String.eqb (toLowerCase (Path.extname g)) ".webp" = false).
  { intros g Hg. apply elem_of_imageFiles in Hg as (f & _ & Hf & <-).
    by apply image_file_not_webp. }
  assert (Hagree : forall g, g ∈ imageFiles files ->
                     tracked (JsSet.elements w1 (next_ref w)) g = tracked T g).
  { intros g _. by rewrite Hel1. }
  destruct (for_each_file_run e (next_ref w) T (imageFiles files)
              (NoDup_imageFiles _ Hnd) Hext 0%nat w1 Hagree)
    as (w2 & Hloop & Hel2 & _).
  pose proof (loop_effect_disk e (next_ref w) T (imageFiles files)
                (NoDup_imageFiles _ Hnd) Hext w1 Hagree) as Hdisk.
  rewrite for_each_file_eval in Hloop. injection Hloop as _ Hw2.
  rewrite Hw2 in Hdisk. rewrite Hel1 in Hel2.
  unfold bind at 1 in Hrun. rewrite for_each_file_eval, Hw2 in Hrun.
  unfold bind at 1 in Hrun.
  unfold updateOptimizedTracker, bind, JsSet.to_array, Fs.writeFile in Hrun.
  rewrite Hwr, Hel2 in Hrun. unfold JsSet.size, console_log in Hrun.
  injection Hrun as <-. cbn [disk print write_file]. by rewrite Hdisk.
Qed.

Lemma last_write_concat_ext {A} (g h : A -> list (string * string)) p (l : list A) :
  (forall x, x ∈ l -> last_write p (g x) = last_write p (h x)) ->
  last_write p (concat (map g l)) = last_write p (concat (map h l)).
Proof.
  induction l as [|x l IH]; intros H; [done|].
  cbn [map concat]. rewrite !last_write_app, IH by (intros y Hy; apply H; by right).
  by rewrite (H x ltac:(left)).
Qed.

Lemma last_write_concat_none {A} (h : A -> list (string * string)) p (l : list A) :
  (forall x, x ∈ l -> last_write p (h x) = None) ->
  last_write p (concat (map h l)) = None.
Proof.
  induction l as [|x l IH]; intros H; [done|].
  cbn [map concat]. rewrite last_write_app, IH by (intros y Hy; apply H; by right).
  apply H. by left.
Qed.

(** The last write to a path that one element alone writes to. *)
Lemma last_write_unique {A} `{EqDecision A} (h : A -> list (string * string))
    p (l : list A) g :
  g ∈ l ->
  (forall x, x ∈ l -> x <> g -> last_write p (h x) = None) ->
  last_write p (concat (map h l)) = last_write p (h g).
Proof.
  induction l as [|x l IH]; intros Hg Hothers; [by apply elem_of_nil in Hg|].
  cbn [map concat]. rewrite last_write_app.
  destruct (decide (g ∈ l)) as [Hin|Hnot].
  - rewrite IH by (done || intros y Hy; apply Hothers; by right).
    destruct (last_write p (h g)) as [v|] eqn:E; [done|].
    destruct (decide (x = g)) as [->|Hne]; [done|].
    apply Hothers; [by left|done].
  - apply elem_of_cons in Hg as [->|Hg]; [|contradiction].
    rewrite last_write_concat_none; [done|].
    intros y Hy. apply Hothers; [by right|]. intros ->. contradiction.
Qed.

(** X11.  Running again changes no file: a second run over the same
    directory, which reads back the tracker the first run persisted,
    writes every thumbnail once more and the tracker once more, each with
    the bytes it already had, leaves what a failed conversion left
    before, and writes nothing else.  This holds when each candidate
    either leaves no file of its own when its conversion fails or is the
    one candidate with its output name: a candidate that fails again
    would otherwise put its partial file over the output that a
    candidate of the same base name wrote in the first run. *)
Theorem rerun_leaves_disk_unchanged (e : Env) (w : World) (files : list Dirent) :
  io_ok e files ->
  fs_readFile_fault e TRACKER_FILE = None ->
  (let w1 := snd (runOptimization e w) in
   JSON_parse e (JSON_stringify e (JArray (JsSet.elements w1 (next_ref w))))
   = Ok (JArray (JsSet.elements w1 (next_ref w)))) ->
  (forall f, f ∈ imageFiles files ->
     optimize_residue e (fullPath f) f = None
     \/ (forall g, g ∈ imageFiles files -> outputPath g = outputPath f -> g = f)) ->
  exists w1 w2,
    runOptimization e w = (Ok tt, w1)
    /\ runOptimization e w1 = (Ok tt, w2)
    /\ disk w2 = disk w1
    /\ JsSet.elements w2 (next_ref w1) = JsSet.elements w1 (next_ref w)
    /\ written_during w1 w2
       = map thumbPath (thumbnailed e (imageFiles files)) ++ [TRACKER_FILE].
Proof.
  intros Hio Hread Hparse Halone.
  destruct (runOptimization_run e w files Hio) as (w1 & Hrun1 & Hel1 & _ & _ & Hdisk1).
  destruct (runOptimization_disk e w files Hio) as (w1' & Hrun1' & Hd1).
  assert (w1' = w1) as -> by congruence. clear Hrun1'.
  rewrite Hrun1 in Hparse. cbn [snd] in Hparse. rewrite Hel1 in Hparse.
  set (T := loaded_tracker e w) in *.
  set (cands := imageFiles files) in *.
  set (T1 := T ++ map JString (newly_optimized e T cands)) in *.
  assert (Hnd : NoDup cands).
  { apply NoDup_imageFiles. by destruct Hio as (_ & _ & _ & _ & ?). }
  assert (HdT1 : distinct T1 = true).
  { apply distinct_after_run; [apply distinct_loaded|done]. }
  assert (Hload : loaded_tracker e w1 = T1).
  { unfold loaded_tracker, tracker_read. rewrite Hread, Hdisk1, Hparse. cbn.
    by apply (fold_insert_distinct _ []). }
  destruct (runOptimization_run e w1 files Hio) as (w2 & Hrun2 & Hel2 & _ & Hw2 & _).
  destruct (runOptimization_disk e w1 files Hio) as (w2' & Hrun2' & Hd2).
  assert (w2' = w2) as -> by congruence. clear Hrun2'.
  rewrite Hload in Hel2, Hd2, Hw2. fold cands in Hel2, Hd2, Hw2.
  assert (Hbefore : forall f, tracked T1 f = false -> tracked T f = false).
  { intros f Ht1. unfold T1 in Ht1. rewrite tracked_app in Ht1.
    by apply orb_false_iff in Ht1 as [Ht0 _]. }
  assert (Hfail : forall f, f ∈ cands -> tracked T1 f = false ->
                    succeeds (optimize_attempt e (fullPath f) f) = false).
  { intros f Hf Ht1.
    pose proof (tracked_after_run e T cands f Hf (Hbefore f Ht1)) as Hafter.
    fold T1 in Hafter. congruence. }
  assert (Hnone : newly_optimized e T1 cands = []).
  { apply filter_none. intros f Hf Hok.
    apply list_elem_of_filter in Hf as [Ht Hf]. rewrite (Hfail f Hf Ht) in Hok. done. }
  rewrite Hnone in Hel2, Hd2. cbn [map] in Hel2, Hd2. rewrite app_nil_r in Hel2, Hd2.
  exists w1, w2. split; [done|]. split; [done|]. split; [|split].
  - rewrite Hd2. apply map_eq. intros p.
    destruct (decide (p = TRACKER_FILE)) as [->|Hp].
    { by rewrite lookup_insert_eq, Hdisk1. }
    rewrite lookup_insert_ne, lookup_store by done.
    destruct (last_write p (concat (map (file_outputs e T1) cands))) as [v|] eqn:Hlast;
      [|done].
    rewrite Hd1, lookup_insert_ne, lookup_store by done.
    enough (Hfirst : last_write p (concat (map (file_outputs e T) cands)) = Some v)
      by (by rewrite Hfirst).
    pose proof (last_write_elem _ _ _ Hlast) as Hin.
    apply elem_of_concat_map_inv in Hin as (g & Hg & Hin).
    apply elem_of_file_outputs in Hin as [(Hpath & Ht1 & Hopt)|(Hpath & _)].
    + (* what a conversion that failed again left: the first run left
         it, and no other candidate has this output *)
      destruct Hopt as [Hok|(_ & Hres)].
      { pose proof (Hfail g Hg Ht1) as Hno. rewrite Hok in Hno. discriminate Hno. }
      destruct (Halone g Hg) as [Hnone'|Huniq]; [congruence|].
      rewrite (last_write_unique (file_outputs e T) p cands g Hg).
      * unfold file_outputs. rewrite (Hbefore g Ht1), last_write_app.
        rewrite last_write_other by (rewrite Hpath; apply outputPath_ne_thumbPath).
        pose proof (Hfail g Hg Ht1) as Hno.
        unfold attempt_output.
        destruct (optimize_attempt e (fullPath g) g); [discriminate Hno|].
        rewrite Hres. cbn [last_write fst snd]. rewrite Hpath.
        by rewrite String.eqb_refl.
      * intros x Hx Hne. unfold file_outputs. rewrite last_write_app.
        rewrite last_write_other by (rewrite Hpath; apply outputPath_ne_thumbPath).
        destruct (tracked T x); [done|].
        apply last_write_other. rewrite Hpath. intros Heq.
        apply Hne. by apply Huniq.
    + (* a thumbnail: the first run made the same write last *)
      rewrite <- Hlast. apply last_write_concat_ext. intros f Hf.
      unfold file_outputs. rewrite !last_write_app.
      destruct (last_write p (attempt_output (thumbPath f)
                                (thumbnail_attempt e (fullPath f) f)
                                (thumbnail_residue e (fullPath f) f))); [done|].
      assert (Hne : p <> outputPath f).
      { rewrite Hpath. intros Heq. symmetry in Heq.
        by apply outputPath_ne_thumbPath in Heq. }
      destruct (tracked T f), (tracked T1 f); try done;
        by rewrite ?last_write_other.
  - by rewrite Hel2, Hel1.
  - rewrite (written_during_wrote _ _ _ _ Hw2). f_equal.
    clear -Hfail. assert (Hall : forall f, f ∈ cands -> f ∈ cands) by done.
    revert Hall. generalize cands at 1 3 4. intros l. induction l as [|f l IH]; intros Hall; [done|].
    cbn [map concat]. rewrite thumbnailed_cons, map_app, IH by (intros g Hg; apply Hall; by right).
    f_equal. unfold file_writes.
    assert (Hopt : (if tracked T1 f then []
                    else if succeeds (optimize_attempt e (fullPath f) f)
                         then [outputPath f] else []) = []).
    { destruct (tracked T1 f) eqn:Ht; [done|].
      by rewrite (Hfail f (Hall f ltac:(left)) Ht). }
    rewrite Hopt. cbn [app].
    by destruct (succeeds (thumbnail_attempt e (fullPath f) f)).
Qed.

Lemma rerun_leaves_disk_unchanged_witness :
  exists w1 w2,
    runOptimization Examples.two_images Examples.empty_world = (Ok tt, w1)
    /\ runOptimization Examples.two_images w1 = (Ok tt, w2)
    /\ disk w2 = disk w1
    /\ written_during w1 w2
       = ["img/products/thumbnail/ring.webp"; "img/products/thumbnail/chain.webp";
          "img/products/optimized_images.json"].
Proof.
  destruct (rerun_leaves_disk_unchanged Examples.two_images Examples.empty_world
              (Examples.entries ["ring.jpg"; "chain.png"]))
    as (w1 & w2 & Hrun1 & Hrun2 & Hdisk & _ & Hwritten).
  - apply io_ok_sample. vm_compute. reflexivity.
  - reflexivity.
  - vm_compute. reflexivity.
  - intros f _. by left.
  - exists w1, w2. split; [exact Hrun1|]. split; [exact Hrun2|]. split; [exact Hdisk|].
    etrans; [exact Hwritten|]. vm_compute. reflexivity.
Defined.

(** Without that condition a second run can change a file: [a.jpg],
    whose encoding fails, is tried again and leaves its empty file where
    the first run had the output of [a.png]. *)
Example rerun_overwrites_shared_output :
  let w1 := snd (runOptimization Faults.shared_output Examples.empty_world) in
  let w2 := snd (runOptimization Faults.shared_output w1) in
  runOptimization Faults.shared_output Examples.empty_world = (Ok tt, w1)
  /\ runOptimization Faults.shared_output w1 = (Ok tt, w2)
  /\ JsSet.elements w1 0 = [JString "a.png"]
  /\ outputPath "a.jpg" = outputPath "a.png"
  /\ disk w1 !! outputPath "a.png" = Some "webp img/products/a.png"
  /\ disk w2 !! outputPath "a.png" = Some EmptyString
  /\ disk w2 <> disk w1.
Proof.
  cbv zeta.
  split; [vm_compute; reflexivity|]. split; [vm_compute; reflexivity|].
  split; [vm_compute; reflexivity|]. split; [vm_compute; reflexivity|].
  split; [vm_compute; reflexivity|]. split; [vm_compute; reflexivity|].
  intros H. apply (f_equal (fun d => d !! outputPath "a.png")) in H.
  vm_compute in H. discriminate H.
Qed.

(** ** The two steps on one file *)

(** X15.  [createThumbnail] returns normally whatever sharp does, and
    changes no file but the thumbnail.  When sharp resizes, reads the
    resized buffer and encodes, the thumbnail is written with the encoded
    bytes.  When the resizing or the reading fails no file is changed;
    when the encoding fails the thumbnail is as it was or holds what the
    failed write left, an empty file for one.  A failure prints one error
    line, made of the file name and the message.  The later stages are
    not consulted once an earlier one has failed. *)
Theorem createThumbnail_writes_or_reports (e : Env) (inputPath filename : string)
    (w : World) :
  exists w',
    createThumbnail e inputPath filename w = (Ok tt, w')
    /\ (forall p, p <> thumbPath filename -> disk w' !! p = disk w !! p)
    /\ (forall bytes,
          thumbnail_attempt e inputPath filename = Ok bytes ->
          disk w' = <[thumbPath filename := bytes]> (disk w)
          /\ written_during w w' = [thumbPath filename]
          /\ console w' = console w ++ [thumbnail_line filename])
    /\ (forall error,
          thumbnail_attempt e inputPath filename = Throw error ->
          disk w' = disk (leave_file w (thumbPath filename)
                                     (thumbnail_residue e inputPath filename))
          /\ written_during w w' = []
          /\ console w' = console w ++ [thumbnail_failed_line e filename error]
          /\ (has_percent filename = false ->
              thumbnail_failed_line e filename error
              = console_error_line
                  ("❌ Failed to create thumbnail for " +:+ filename +:+ ": "
                   +:+ message error)))
    /\ (forall error,
          sharp_resize_toBuffer e (Sharp.FromPath inputPath) = Throw error ->
          thumbnail_attempt e inputPath filename = Throw error
          /\ disk w' = disk w)
    /\ (forall buffer error,
          sharp_resize_toBuffer e (Sharp.FromPath inputPath) = Ok buffer ->
          sharp_metadata e (Sharp.FromBuffer buffer) = Throw error ->
          thumbnail_attempt e inputPath filename = Throw error
          /\ disk w' = disk w)
    /\ (forall buffer metadata error,
          sharp_resize_toBuffer e (Sharp.FromPath inputPath) = Ok buffer ->
          sharp_metadata e (Sharp.FromBuffer buffer) = Ok metadata ->
          let overlay :=
            createWatermarkSVG (Sharp.width metadata) (Sharp.height metadata) in
          sharp_composite_webp_toFile e (Sharp.FromBuffer buffer) overlay
            (thumbPath filename) = Throw error ->
          thumbnail_attempt e inputPath filename = Throw error
          /\ disk w'
             = disk (leave_file w (thumbPath filename)
                       (sharp_toFile_partial e (Sharp.FromBuffer buffer) overlay
                          (thumbPath filename)))).
Proof.
  exists (thumbnail_effect e inputPath filename w).
  split; [apply createThumbnail_run|].
  split.
  { intros p Hp.
    destruct (thumbnail_effect_spec e inputPath filename w) as (_ & _ & _ & Hw).
    destruct Hw as (_ & _ & _ & Hout). apply Hout.
    - destruct (succeeds _); [|apply not_elem_of_nil].
      intros Hin. by apply list_elem_of_singleton in Hin.
    - intros Hin. by apply list_elem_of_singleton in Hin. }
  unfold thumbnail_effect, written_during.
  split; [|split; [|split; [|split]]].
  - intros bytes ->. cbn [disk writes console print write_file].
    by rewrite drop_app_length.
  - intros error ->.
    assert (Hwr : writes (leave_file w (thumbPath filename)
                            (thumbnail_residue e inputPath filename)) = writes w)
      by (by destruct (thumbnail_residue e inputPath filename)).
    assert (Hc : console (leave_file w (thumbPath filename)
                            (thumbnail_residue e inputPath filename)) = console w)
      by (by destruct (thumbnail_residue e inputPath filename)).
    cbn [disk writes console print]. rewrite Hwr, Hc, drop_all.
    split; [done|]. split; [done|]. split; [done|].
    apply thumbnail_failed_line_plain.
  - intros error H. unfold thumbnail_attempt, thumbnail_residue. by rewrite H.
  - intros buffer error Hb Hm. unfold thumbnail_attempt, thumbnail_residue.
    by rewrite Hb, Hm.
  - intros buffer metadata error Hb Hm. cbv zeta. intros Hfail.
    unfold thumbnail_attempt, thumbnail_residue. rewrite Hb, Hm. cbv zeta.
    by rewrite Hfail.
Qed.

Lemma createThumbnail_writes_or_reports_witness :
  (exists w',
     createThumbnail Examples.one_bad "img/products/broken.png" "broken.png"
       Examples.empty_world = (Ok tt, w')
     /\ disk w' = ∅
     /\ console w'
        = [console_error_line
             "❌ Failed to create thumbnail for broken.png: Input file contains unsupported image format"])
  /\ (exists w',
        createThumbnail Faults.no_encode "img/products/ring.jpg" "ring.jpg"
          Examples.empty_world = (Ok tt, w')
        /\ disk w' = {[ "img/products/thumbnail/ring.webp" := EmptyString ]}
        /\ writes w' = []).
Proof.
  split.
  - destruct (createThumbnail_writes_or_reports Examples.one_bad
                "img/products/broken.png" "broken.png" Examples.empty_world)
      as (w' & Hrun & _ & _ & Hfail & Hresize & _).
    exists w'. split; [exact Hrun|].
    destruct (Hresize Examples.unsupported) as (_ & Hdisk); [reflexivity|].
    destruct (Hfail Examples.unsupported) as (_ & _ & Hconsole & Hplain); [reflexivity|].
    split; [exact Hdisk|]. rewrite Hconsole, Hplain; reflexivity.
  - destruct (createThumbnail_writes_or_reports Faults.no_encode
                "img/products/ring.jpg" "ring.jpg" Examples.empty_world)
      as (w' & Hrun & _ & _ & Hfail & _ & _ & Hencode).
    exists w'. split; [exact Hrun|].
    destruct (Hencode "resized img/products/ring.jpg" (Sharp.mkMetadata 400 300)
                Faults.ENOSPC) as (_ & Hdisk); [reflexivity|reflexivity|reflexivity|].
    destruct (Hfail Faults.ENOSPC) as (_ & Hwritten & _); [reflexivity|].
    split; [etrans; [exact Hdisk|vm_compute; reflexivity]|].
    exact Hwritten.
Defined.

(** X16.  After a call of [optimizeImage] whose conversion succeeded the
    file is tracked, its output is on disk with the encoded bytes, and a
    second call for the same file changes nothing: it does not convert
    again. *)
Theorem optimizeImage_once (e : Env) (inputPath filename : string)
    (trackerSet : nat) (w : World) (bytes : string) :
  optimize_attempt e inputPath filename = Ok bytes ->
  toLowerCase (Path.extname filename) <> ".webp" ->
  exists w1,
    optimizeImage e inputPath filename trackerSet w = (Ok tt, w1)
    /\ tracked (JsSet.elements w1 trackerSet) filename = true
    /\ (tracked (JsSet.elements w trackerSet) filename = false ->
        disk w1 !! outputPath filename = Some bytes
        /\ written_during w w1 = [outputPath filename])
    /\ optimizeImage e inputPath filename trackerSet w1 = (Ok tt, w1).
Proof.
  intros Hok Hext.
  assert (Hext' : String.eqb (toLowerCase (Path.extname filename)) ".webp" = false)
    by (by apply String.eqb_neq).
  exists (optimize_effect e inputPath filename trackerSet w).
  split; [apply optimizeImage_run|].
  assert (Htracked : tracked (JsSet.elements
                                (optimize_effect e inputPath filename trackerSet w)
                                trackerSet) filename = true).
  { unfold optimize_effect.
    destruct (tracked (JsSet.elements w trackerSet) filename) eqn:Ht; [done|].
    rewrite Hext', Hok, elements_set_heap, (insert_untracked _ _ Ht), tracked_snoc.
    by rewrite String.eqb_refl, orb_true_r. }
  split; [exact Htracked|]. split.
  - intros Ht. unfold optimize_effect, written_during. rewrite Ht, Hext', Hok.
    cbn [disk writes set_heap print write_file].
    by rewrite lookup_insert_eq, drop_app_length.
  - rewrite optimizeImage_run. unfold optimize_effect at 1. by rewrite Htracked.
Qed.

Lemma optimizeImage_once_witness :
  exists w1,
    optimizeImage Examples.two_images "img/products/ring.jpg" "ring.jpg" 0
      Examples.empty_world = (Ok tt, w1)
    /\ tracked (JsSet.elements w1 0) "ring.jpg" = true
    /\ optimizeImage Examples.two_images "img/products/ring.jpg" "ring.jpg" 0 w1
       = (Ok tt, w1).
Proof.
  destruct (optimizeImage_once Examples.two_images "img/products/ring.jpg" "ring.jpg" 0
              Examples.empty_world "webp img/products/ring.jpg")
    as (w1 & Hrun & Htracked & _ & Hagain).
  - reflexivity.
  - intros H. vm_compute in H. discriminate H.
  - exists w1. split; [exact Hrun|]. split; [exact Htracked|exact Hagain].
Defined.
